(** * AI-Coach-Kessie: the Notion ingestion and retrieval pipeline

    A shallow embedding of [notion_loader.py], [rag.py], [usage_store.py]
    and the answer boundary of [app.py], followed by the properties the
    specification states about them.

    Conventions of the embedding:
    - a Python [str] is the list of its Unicode code points ([list N]);
      [len] is [length], [s[a:b]] is [slice a b s];
    - a call that may raise returns [exn + A]; code that may raise or loop
      returns an [outcome]: [Ret], [Raise], or [OutOfFuel] when the
      recursion budget given to the model is exhausted;
    - a generator is the pair of the documents it has yielded and the
      outcome that ended it;
    - the Notion service is a record of functions ([Client]): the workspace
      does not change while one ingest reads it. *)

From Stdlib Require Import NArith ZArith List String Ascii Lia DecimalString.
From stdpp Require Import base option list sorting gmap.
Import ListNotations.

Set Default Proof Using "Type".

(** ** Python strings *)

Module py.

Abbreviation pystr := (list N).

(** A literal of the source, as code points. *)
Definition str (s : string) : pystr := map N_of_ascii (list_ascii_of_string s).

(** [str.isspace] on one code point: the characters [str.strip()] removes
    (Unicode white space as CPython's unicode database lists it). *)
Definition is_space (c : N) : bool :=
  ((9 <=? c) && (c <=? 13) || (28 <=? c) && (c <=? 32)
   || (c =? 133) || (c =? 160) || (c =? 5760)
   || (8192 <=? c) && (c <=? 8202) || (c =? 8232) || (c =? 8233)
   || (c =? 8239) || (c =? 8287) || (c =? 12288))%N.

Fixpoint lstrip (s : pystr) : pystr :=
  match s with
  | c :: s' => if is_space c then lstrip s' else s
  | [] => []
  end.

Definition rstrip (s : pystr) : pystr := rev (lstrip (rev s)).

(** [s.strip()] *)
Definition strip (s : pystr) : pystr := rstrip (lstrip s).

(** Truth value of a string: non-empty. *)
Definition truthy (s : pystr) : bool :=
  match s with [] => false | _ :: _ => true end.

(** [s[a:b]] for [0 <= a <= b]; [s[a:]] is [drop a s]. *)
Definition slice (a b : nat) (s : pystr) : pystr := take (b - a) (drop a s).

Definition hyphen : N := 45%N.

(** [s.replace("-", "")] *)
Definition remove_hyphens (s : pystr) : pystr :=
  List.filter (fun c => negb (c =? hyphen)%N) s.

(** [sep.join(parts)] *)
Fixpoint join (sep : pystr) (parts : list pystr) : pystr :=
  match parts with
  | [] => []
  | [p] => p
  | p :: rest => p ++ sep ++ join sep rest
  end.

(** [a or b] on an optional string ([None] and [""] are both false). *)
Definition or_else (a : option pystr) (b : pystr) : pystr :=
  match a with
  | Some s => if truthy s then s else b
  | None => b
  end.

Definition eqb (a b : pystr) : bool := bool_decide (a = b).

(** Exceptions, all subclasses of [Exception]; [ServiceError] stands for
    whatever an external service call raises. *)
Inductive exn :=
  | ValueError (msg : pystr)
  | RuntimeError (msg : pystr)
  | ServiceError (msg : pystr).

(** [str(e)] *)
Definition exn_str (e : exn) : pystr :=
  match e with ValueError m | RuntimeError m | ServiceError m => m end.

Inductive outcome (A : Type) :=
  | Ret (a : A)
  | Raise (e : exn)
  | OutOfFuel.
Arguments Ret {A} a.
Arguments Raise {A} e.
Arguments OutOfFuel {A}.

#[export] Instance outcome_ret : MRet outcome := @Ret.
#[export] Instance outcome_bind : MBind outcome := fun A B f m =>
  match m with
  | Ret a => f a
  | Raise e => Raise e
  | OutOfFuel => OutOfFuel
  end.

(** The result of a service call, inside code that may raise. *)
Definition call {A} (r : exn + A) : outcome A :=
  match r with inl e => Raise e | inr a => Ret a end.

(** [try: m  except Exception as e: h e] *)
Definition try_except {A} (m : outcome A) (h : exn → outcome A) : outcome A :=
  match m with
  | Raise e => h e
  | other => other
  end.

(** A generator run to its end: what it yielded, and how it stopped. *)
Definition generated (A : Type) : Type := list A * outcome unit.

(** [list(gen)] *)
Definition to_list {A} (g : generated A) : outcome (list A) :=
  match g with
  | (xs, Ret _) => Ret xs
  | (_, Raise e) => Raise e
  | (_, OutOfFuel) => OutOfFuel
  end.

(** [yield x] in front of the rest of a generator. *)
Definition yield {A} (x : A) (rest : generated A) : generated A :=
  (x :: rest.1, rest.2).

(** [s.split(sep)] for a separator of one character; [cur] is the piece
    being read. *)
Fixpoint split_from (sep : N) (cur : pystr) (s : pystr) : list pystr :=
  match s with
  | [] => [cur]
  | c :: s => if (c =? sep)%N then cur :: split_from sep [] s
              else split_from sep (cur ++ [c]) s
  end.

Definition split (sep : N) (s : pystr) : list pystr := split_from sep [] s.

(** [f"{n}"] for a non-negative integer. *)
Definition decimal (n : nat) : pystr := str (NilZero.string_of_uint (Nat.to_uint n)).

End py.
Export py.

(** ** notion_loader.py *)

Module notion_loader.

(** One span of a rich-text array: [plain_text] and [text.content]. *)
Record RichItem := {
  plain_text : option pystr;
  text_content : option pystr
}.

(** The payload a block carries under the key named by its type. *)
Record TypeData := {
  rich_text : option (list RichItem);
  title : option pystr;
  url : option pystr;
  expression : option pystr
}.

Record Block := {
  id : pystr;
  archived : bool;
  in_trash : bool;
  type : pystr;
  data : TypeData;
  has_children : bool
}.

Record Property := {
  prop_type : pystr;
  prop_title : list RichItem
}.

(** A page object (also a row of a data source); [properties] keeps the
    order of the JSON object. *)
Record Page := {
  page_id : pystr;
  properties : list (pystr * Property)
}.

(** A cursor-paginated listing response. *)
Record Listing (A : Type) := {
  results : list A;
  has_more : bool;
  next_cursor : option pystr
}.
Arguments results {A} l.
Arguments has_more {A} l.
Arguments next_cursor {A} l.

(** A data-source object returned by search. *)
Record DataSourceRef := { ds_ref_id : option pystr }.

(** [notion_client.Client]: the calls the loaders make. *)
Record Client := {
  blocks_children_list : pystr → nat → option pystr → exn + Listing Block;
  pages_retrieve : pystr → exn + Page;
  data_sources_query : pystr → nat → option pystr → exn + Listing Page;
  search_data_sources : nat → exn + Listing DataSourceRef
}.

Record Document := {
  page_content : pystr;
  source : pystr;
  doc_title : pystr
}.

Definition _extract_rich_text (rich_text : list RichItem) : pystr :=
  concat (map (fun item => or_else (plain_text item)
                             (default [] (text_content item))) rich_text).

Definition _extract_block_text (block : Block) : pystr :=
  let block_type := type block in
  let type_data := data block in
  match rich_text type_data with
  | Some rt => _extract_rich_text rt
  | None =>
    if eqb block_type (str "child_page") then or_else (title type_data) []
    else if eqb block_type (str "child_database") then or_else (title type_data) []
    else if eqb block_type (str "bookmark") || eqb block_type (str "embed")
      then or_else (url type_data) []
    else if eqb block_type (str "code") then _extract_rich_text []
    else if eqb block_type (str "equation") then or_else (expression type_data) []
    else []
  end.

Fixpoint _get_page_title_from_props (props : list (pystr * Property)) : pystr :=
  match props with
  | (name, prop) :: rest =>
    if eqb (prop_type prop) (str "title") then
      match prop_title prop with
      | [] => str "Untitled"
      | arr => _extract_rich_text arr
      end
    else _get_page_title_from_props rest
  | [] => str "Untitled"
  end.

(** The [for block in resp["results"]] loop of [_fetch_blocks_recursive];
    [recurse] is the recursive call. *)
Fixpoint blocks_recursive_for (recurse : pystr → outcome (list pystr))
    (blocks : list Block) (parts : list pystr) : outcome (list pystr) :=
  match blocks with
  | [] => Ret parts
  | block :: rest =>
    if archived block || in_trash block then
      blocks_recursive_for recurse rest parts
    else
      let text := _extract_block_text block in
      let parts := if truthy (strip text) then parts ++ [strip text] else parts in
      if has_children block then
        sub ← recurse (id block);
        blocks_recursive_for recurse rest (parts ++ sub)
      else blocks_recursive_for recurse rest parts
  end.

(** The [while True] loop of [_fetch_blocks_recursive], from [cursor] on
    with [parts] gathered so far. *)
Fixpoint blocks_recursive_while (fuel : nat) (notion : Client) (block_id : pystr)
    (cursor : option pystr) (parts : list pystr) : outcome (list pystr) :=
  match fuel with
  | 0 => OutOfFuel
  | S fuel =>
    resp ← call (blocks_children_list notion block_id 100 cursor);
    parts ← blocks_recursive_for
              (fun child => blocks_recursive_while fuel notion child None [])
              (results resp) parts;
    if has_more resp
    then blocks_recursive_while fuel notion block_id (next_cursor resp) parts
    else Ret parts
  end.

Definition _fetch_blocks_recursive (fuel : nat) (notion : Client)
    (block_id : pystr) : outcome (list pystr) :=
  blocks_recursive_while fuel notion block_id None [].

(** ["\n".join(p for p in parts if p and p.strip())] *)
Definition join_parts (parts : list pystr) : pystr :=
  join (str (String "010" "")) (List.filter (fun p => truthy p && truthy (strip p)) parts).

(** The [for] loop of [_fetch_block_text_full]. It cannot raise: the
    recursive call is wrapped in [try ... except Exception: pass]. *)
Fixpoint block_text_full_for (recurse : pystr → outcome pystr)
    (blocks : list Block) (parts : list pystr) : outcome (list pystr) :=
  match blocks with
  | [] => Ret parts
  | block :: rest =>
    if archived block || in_trash block then
      block_text_full_for recurse rest parts
    else
      let bt := type block in
      if eqb bt (str "unsupported") then block_text_full_for recurse rest parts
      else
        let data := data block in
        let parts :=
          match rich_text data with
          | Some rt =>
            let txt := _extract_rich_text rt in
            if truthy txt then parts ++ [txt] else parts
          | None =>
            if eqb bt (str "child_page") then parts ++ [or_else (title data) []]
            else parts
          end in
        if has_children block then
          parts ← try_except (sub ← recurse (id block); Ret (parts ++ [sub]))
                             (fun _ => Ret parts);
          block_text_full_for recurse rest parts
        else block_text_full_for recurse rest parts
  end.

Fixpoint block_text_full_while (fuel : nat) (notion : Client) (block_id : pystr)
    (cursor : option pystr) (parts : list pystr) : outcome pystr :=
  match fuel with
  | 0 => OutOfFuel
  | S fuel =>
    match blocks_children_list notion block_id 100 cursor with
    | inl _ => Ret (join_parts parts)
    | inr resp =>
      parts ← block_text_full_for
                (fun child => block_text_full_while fuel notion child None [])
                (results resp) parts;
      if has_more resp
      then block_text_full_while fuel notion block_id (next_cursor resp) parts
      else Ret (join_parts parts)
    end
  end.

Definition _fetch_block_text_full (fuel : nat) (notion : Client)
    (block_id : pystr) : outcome pystr :=
  block_text_full_while fuel notion block_id None [].

(** The f-string [f"{s[:8]}-{s[8:12]}-{s[12:16]}-{s[16:20]}-{s[20:]}"]. *)
Definition hyphenate (s : pystr) : pystr :=
  slice 0 8 s ++ [hyphen] ++ slice 8 12 s ++ [hyphen] ++ slice 12 16 s
  ++ [hyphen] ++ slice 16 20 s ++ [hyphen] ++ drop 20 s.

(** [f"[Page: {title}]"] *)
Definition placeholder (title : pystr) : pystr :=
  str "[Page: " ++ title ++ str "]".

(** [integration_token or os.getenv("NOTION_API_KEY")], then the check
    that raises [ValueError]. *)
Definition resolve_token (integration_token env_key : option pystr) : exn + pystr :=
  let token := match integration_token with
               | Some t => if truthy t then Some t else env_key
               | None => env_key
               end in
  match token with
  | Some t => if truthy t then inr t else inl (ValueError (str "NOTION_API_KEY required."))
  | None => inl (ValueError (str "NOTION_API_KEY required."))
  end.

Module NotionPageLoader.

Record t := {
  page_ids : list pystr;
  integration_token : pystr
}.

Definition __init__ (page_ids : list pystr) (integration_token env_key : option pystr)
    : exn + t :=
  let ids := map (fun p => remove_hyphens (strip p))
                 (List.filter (fun p => truthy (strip p)) page_ids) in
  match resolve_token integration_token env_key with
  | inl e => inl e
  | inr tok => inr {| page_ids := ids; integration_token := tok |}
  end.

(** The identifier a stored [raw_id] is used under (line 113). *)
Definition page_id_of (raw_id : pystr) : pystr :=
  if length raw_id =? 32 then hyphenate raw_id else raw_id.

Fixpoint lazy_load_for (fuel : nat) (notion : Client) (raw_ids : list pystr)
    : generated Document :=
  match raw_ids with
  | [] => ([], Ret tt)
  | raw_id :: rest =>
    let page_id := page_id_of raw_id in
    let body :=
      page ← call (pages_retrieve notion page_id);
      let title := _get_page_title_from_props (properties page) in
      blocks ← _fetch_blocks_recursive fuel notion page_id;
      let content := match blocks with
                     | [] => placeholder title
                     | _ => join (str (String "010" (String "010" ""))) blocks
                     end in
      Ret {| page_content := content; source := page_id; doc_title := title |} in
    match try_except body (fun e =>
            Raise (RuntimeError (str "Failed to load page " ++ page_id
                                 ++ str ": " ++ exn_str e))) with
    | Ret doc => yield doc (lazy_load_for fuel notion rest)
    | Raise e => ([], Raise e)
    | OutOfFuel => ([], OutOfFuel)
    end
  end.

Definition lazy_load (fuel : nat) (notion : Client) (self : t) : generated Document :=
  lazy_load_for fuel notion (page_ids self).

Definition load (fuel : nat) (notion : Client) (self : t) : outcome (list Document) :=
  to_list (lazy_load fuel notion self).

End NotionPageLoader.

Module NotionDataSourceLoader.

Record t := {
  data_source_id : pystr;
  integration_token : pystr
}.

Definition __init__ (data_source_id : pystr) (integration_token env_key : option pystr)
    : exn + t :=
  match resolve_token integration_token env_key with
  | inl e => inl e
  | inr tok => inr {| data_source_id := remove_hyphens (strip data_source_id);
                      integration_token := tok |}
  end.

(** Lines 135-137: the identifier the queries are made under. *)
Definition ds_id_of (self : t) : pystr :=
  let ds_id := data_source_id self in
  if length ds_id =? 32 then hyphenate ds_id else ds_id.

(** The [for page in resp["results"]] loop. *)
Fixpoint lazy_load_for (fuel : nat) (notion : Client) (pages : list Page)
    (rest : generated Document) : generated Document :=
  match pages with
  | [] => rest
  | page :: pages =>
    let page_id := page_id page in
    let title := _get_page_title_from_props (properties page) in
    match _fetch_block_text_full fuel notion page_id with
    | Ret content =>
      let content := if truthy (strip content) then content else placeholder title in
      yield {| page_content := content; source := page_id; doc_title := title |}
            (lazy_load_for fuel notion pages rest)
    | Raise e => ([], Raise e)
    | OutOfFuel => ([], OutOfFuel)
    end
  end.

(** The [while True] loop over the pages of the listing. *)
Fixpoint lazy_load_while (fuel : nat) (notion : Client) (ds_id : pystr)
    (cursor : option pystr) : generated Document :=
  match fuel with
  | 0 => ([], OutOfFuel)
  | S fuel =>
    match data_sources_query notion ds_id 100 cursor with
    | inl e => ([], Raise e)
    | inr resp =>
      lazy_load_for (S fuel) notion (results resp)
        (if has_more resp
         then lazy_load_while fuel notion ds_id (next_cursor resp)
         else ([], Ret tt))
    end
  end.

Definition lazy_load (fuel : nat) (notion : Client) (self : t) : generated Document :=
  lazy_load_while fuel notion (ds_id_of self) None.

Definition load (fuel : nat) (notion : Client) (self : t) : outcome (list Document) :=
  to_list (lazy_load fuel notion self).

End NotionDataSourceLoader.

(** The inner loop of [discover_data_source_from_page]: the first candidate
    with an identifier whose trial query does not raise. *)
Fixpoint discover_for (notion : Client) (candidates : list DataSourceRef)
    : option pystr :=
  match candidates with
  | [] => None
  | ds :: rest =>
    match ds_ref_id ds with
    | Some ds_id =>
      if truthy ds_id then
        match data_sources_query notion ds_id 1 None with
        | inr _ => Some ds_id
        | inl _ => discover_for notion rest
        end
      else discover_for notion rest
    | None => discover_for notion rest
    end
  end.

Definition discover_data_source_from_page (notion : Client) (page_id : pystr)
    : option pystr :=
  match search_data_sources notion 5 with
  | inr search_resp => discover_for notion (results search_resp)
  | inl _ => None
  end.

End notion_loader.

(** ** The text splitter configured by rag.py *)

Module text_splitter.

(** Modelled from the spec: the chunker. [rag.py] only configures
    [RecursiveCharacterTextSplitter] of the third-party package
    [langchain_text_splitters]; its code is not among the sources. The
    model follows section 4.2 of the specification: the text is split by the
    earliest separator of a priority list that occurs in it, the separator
    staying at the head of the piece that follows it; pieces shorter than
    [chunk_size] are merged greedily into chunks that carry up to
    [chunk_overlap] characters of the preceding chunk; a piece that is still
    too long is split again with the separators that remain, the empty
    separator cutting between any two characters. *)
Fixpoint starts_with (sep text : pystr) : bool :=
  match sep, text with
  | [], _ => true
  | _ :: _, [] => false
  | a :: sep, b :: text => (a =? b)%N && starts_with sep text
  end.

(** Modelled from the spec: [sep] occurs in [text]. *)
Fixpoint occurs (sep text : pystr) : bool :=
  starts_with sep text ||
  match text with
  | [] => false
  | _ :: text => occurs sep text
  end.

(** Modelled from the spec: the pieces of [text] between the leftmost
    non-overlapping occurrences of a non-empty [sep]. [cur] is the piece
    being read, [skip] the number of characters of a separator just found
    that are still to be copied to its head. *)
Fixpoint split_at (sep : pystr) (cur : pystr) (skip : nat) (text : pystr)
    : list pystr :=
  match text with
  | [] => [cur]
  | c :: rest =>
    match skip with
    | S skip => split_at sep (cur ++ [c]) skip rest
    | 0 =>
      if starts_with sep text
      then cur :: split_at sep [c] (length sep - 1) rest
      else split_at sep (cur ++ [c]) 0 rest
    end
  end.

(** Modelled from the spec: splitting by one separator, empty pieces
    dropped; the empty separator gives the single characters. *)
Definition _split_text_with_regex (text sep : pystr) : list pystr :=
  let splits := if truthy sep then split_at sep [] 0 text
                else map (fun c => [c]) text in
  List.filter truthy splits.

Section splitter.
Variables (chunk_size chunk_overlap : nat).

(** Modelled from the spec: a chunk is the joined pieces, stripped; a blank
    chunk is dropped. *)
Definition _join_docs (docs : list pystr) (separator : pystr) : option pystr :=
  let text := strip (join separator docs) in
  if truthy text then Some text else None.

Definition sep_if (b : bool) (separator : pystr) : nat :=
  if b then length separator else 0.

(** Modelled from the spec: after a chunk is emitted, pieces are dropped
    from its front until what is left is at most [chunk_overlap] long and
    leaves room for the next piece of length [len]. *)
Fixpoint pop_front (separator : pystr) (len : nat) (current_doc : list pystr)
    (total : nat) : list pystr * nat :=
  match current_doc with
  | [] => ([], total)
  | first :: rest =>
    if (chunk_overlap <? total)
       || ((chunk_size <? total + len + sep_if (0 <? length current_doc) separator)
           && (0 <? total))
    then pop_front separator len rest
           (total - (length first + sep_if (1 <? length current_doc) separator))
    else (current_doc, total)
  end.

(** Modelled from the spec: the greedy merge of small pieces, with the
    chunks emitted so far, the pieces of the chunk being built and their
    joined length. *)
Fixpoint merge_loop (separator : pystr) (splits : list pystr)
    (docs : list pystr) (current_doc : list pystr) (total : nat) : list pystr :=
  match splits with
  | [] =>
    match _join_docs current_doc separator with
    | Some doc => docs ++ [doc]
    | None => docs
    end
  | d :: splits =>
    let len := length d in
    let '(docs, current_doc, total) :=
      if chunk_size <? total + len + sep_if (0 <? length current_doc) separator
      then
        match current_doc with
        | [] => (docs, current_doc, total)
        | _ :: _ =>
          let docs := match _join_docs current_doc separator with
                      | Some doc => docs ++ [doc]
                      | None => docs
                      end in
          let '(current_doc, total) := pop_front separator len current_doc total in
          (docs, current_doc, total)
        end
      else (docs, current_doc, total) in
    let current_doc := current_doc ++ [d] in
    merge_loop separator splits docs current_doc
      (total + len + sep_if (1 <? length current_doc) separator)
  end.

Definition _merge_splits (splits : list pystr) (separator : pystr) : list pystr :=
  merge_loop separator splits [] [] 0.

(** Modelled from the spec: the pass over the pieces of one split. A piece
    shorter than [chunk_size] waits in [good]; a longer one first flushes
    [good] through the merge and is then split by the remaining separators
    ([recurse]), or kept whole when none remains. Separators stay inside
    the pieces, so the merge joins with the empty string. *)
Fixpoint split_pieces (recurse : option (pystr → list pystr))
    (splits : list pystr) (good final : list pystr) : list pystr :=
  match splits with
  | [] =>
    match good with
    | [] => final
    | _ :: _ => final ++ _merge_splits good []
    end
  | s :: splits =>
    if length s <? chunk_size then split_pieces recurse splits (good ++ [s]) final
    else
      let final := match good with
                   | [] => final
                   | _ :: _ => final ++ _merge_splits good []
                   end in
      let final := match recurse with
                   | None => final ++ [s]
                   | Some split_more => final ++ split_more s
                   end in
      split_pieces recurse splits [] final
  end.

(** Modelled from the spec: the recursive split. The separator used is the
    first of the list that is empty or occurs in the text, else the last
    one; the separators after it are the ones that remain. *)
Fixpoint _split_text (text : pystr) (separators : list pystr) : list pystr :=
  match separators with
  | [] => []
  | s :: rest =>
    if negb (truthy s) then
      split_pieces None (_split_text_with_regex text s) [] []
    else if occurs s text then
      split_pieces
        (match rest with
         | [] => None
         | _ :: _ => Some (fun piece => _split_text piece rest)
         end)
        (_split_text_with_regex text s) [] []
    else
      match rest with
      | [] => split_pieces None (_split_text_with_regex text s) [] []
      | _ :: _ => _split_text text rest
      end
  end.

End splitter.

End text_splitter.

(** ** rag.py *)

Module rag.
Import notion_loader text_splitter.

(** The environment variables the pipeline reads. *)
Record Env := {
  NOTION_API_KEY : option pystr;
  OPENAI_API_KEY : option pystr
}.

(** The persisted collection of a vector store: the chunks it holds. *)
Abbreviation Index := (list Document).

(** The file system, as far as the pipeline looks at it: the vector stores
    persisted under a directory. *)
Abbreviation FS := (gmap pystr Index).

(** The external services behind the pipeline: the Notion client, the
    third-party database loader, the chat model, the similarity of a query
    and a chunk text under the embedding model, and what
    [Chroma.from_documents] stores for a list of chunks (or raises). *)
Record Services := {
  notion : Client;
  NotionDBLoader_load : option pystr → pystr → exn + list Document;
  complete : pystr → exn + pystr;
  similarity : pystr → pystr → Z;
  Chroma_from_documents : list Document → exn + Index
}.

Definition DEFAULT_PERSIST_DIR : pystr := str "chroma_db".
Definition DEFAULT_CHUNK_SIZE : nat := 800.
Definition DEFAULT_CHUNK_OVERLAP : nat := 150.

Definition newline : N := 10%N.

(** [separators=["\n\n", "\n", ". ", " ", ""]] *)
Definition separators : list pystr :=
  [[newline; newline]; [newline]; str ". "; str " "; []].

Definition env_set (v : option pystr) : bool :=
  match v with Some s => truthy s | None => false end.

Inductive Embeddings := OpenAIEmbeddings (model : pystr).
Inductive ChatModel := ChatOpenAI (model : pystr) (temperature : Z).

Definition get_embeddings (env : Env) : outcome Embeddings :=
  if env_set (OPENAI_API_KEY env)
  then Ret (OpenAIEmbeddings (str "text-embedding-3-small"))
  else Raise (ValueError (str "OPENAI_API_KEY required.")).

Definition get_llm (env : Env) : outcome ChatModel :=
  if env_set (OPENAI_API_KEY env)
  then Ret (ChatOpenAI (str "gpt-4o-mini") 0)
  else Raise (ValueError (str "OPENAI_API_KEY required.")).

(** The normalisation of one entry of [page_ids] (line 73). *)
Definition normalize (raw_id : pystr) : pystr := remove_hyphens (strip raw_id).

(** The [for raw_id in page_ids] loop of [load_notion_documents]. *)
Fixpoint load_pages_for (fuel : nat) (env : Env) (notion : Client)
    (page_ids : list pystr) (seen_ds : gset pystr) (docs : list Document)
    : outcome (list Document) :=
  match page_ids with
  | [] => Ret docs
  | raw_id :: rest =>
    let raw_id := normalize raw_id in
    if negb (length raw_id =? 32) then
      load_pages_for fuel env notion rest seen_ds docs
    else
      let page_id := hyphenate raw_id in
      match discover_data_source_from_page notion page_id with
      | Some ds_id =>
        if truthy ds_id then
          if bool_decide (ds_id ∈ seen_ds) then
            load_pages_for fuel env notion rest seen_ds docs
          else
            loader ← call (NotionDataSourceLoader.__init__ ds_id None (NOTION_API_KEY env));
            loaded ← NotionDataSourceLoader.load fuel notion loader;
            load_pages_for fuel env notion rest ({[ds_id]} ∪ seen_ds) (docs ++ loaded)
        else
          loader ← call (NotionPageLoader.__init__ [raw_id] None (NOTION_API_KEY env));
          loaded ← NotionPageLoader.load fuel notion loader;
          load_pages_for fuel env notion rest seen_ds (docs ++ loaded)
      | None =>
        loader ← call (NotionPageLoader.__init__ [raw_id] None (NOTION_API_KEY env));
        loaded ← NotionPageLoader.load fuel notion loader;
        load_pages_for fuel env notion rest seen_ds (docs ++ loaded)
      end
  end.

Definition load_notion_documents (fuel : nat) (env : Env) (svc : Services)
    (page_ids : option (list pystr)) (database_id data_source_id : option pystr)
    : outcome (list Document) :=
  let docs := [] in
  let token := NOTION_API_KEY env in
  if env_set data_source_id then
    loader ← call (NotionDataSourceLoader.__init__ (default [] data_source_id) None token);
    loaded ← NotionDataSourceLoader.load fuel (notion svc) loader;
    Ret (docs ++ loaded)
  else
    let docs :=
      if env_set database_id then
        match NotionDBLoader_load svc token
                (remove_hyphens (strip (default [] database_id))) with
        | inr loaded => docs ++ loaded
        | inl _ => docs
        end
      else docs in
    match page_ids with
    | Some ((_ :: _) as page_ids) =>
      load_pages_for fuel env (notion svc) page_ids ∅ docs
    | _ => Ret docs
    end.

(** Modelled from the spec: [split_documents] of the splitter, one chunk
    document per chunk text, with the metadata of its parent. *)
Definition split_documents (chunk_size chunk_overlap : nat)
    (documents : list Document) : list Document :=
  concat (map (fun doc =>
    map (fun chunk => {| page_content := chunk; source := source doc;
                         doc_title := doc_title doc |})
        (_split_text chunk_size chunk_overlap (page_content doc) separators))
    documents).

(** A handle on a persisted store. *)
Record Chroma := {
  persist_directory : pystr;
  collection : Index
}.

(** [create_vector_store], threading the file system. *)
Definition create_vector_store (env : Env) (svc : Services) (fs : FS)
    (documents : list Document) (persist_directory : pystr)
    (chunk_size chunk_overlap : nat) : outcome Chroma * FS :=
  match documents with
  | [] => (Raise (ValueError (str "No documents to process.")), fs)
  | _ :: _ =>
    let chunks := split_documents chunk_size chunk_overlap documents in
    match get_embeddings env with
    | Ret embeddings =>
      let persist_path := persist_directory in
      let fs := if bool_decide (is_Some (fs !! persist_path))
                then delete persist_path fs else fs in
      match Chroma_from_documents svc chunks with
      | inr index =>
        (Ret {| persist_directory := persist_path; collection := index |},
         <[persist_path := index]> fs)
      | inl e => (Raise e, fs)
      end
    | Raise e => (Raise e, fs)
    | OutOfFuel => (OutOfFuel, fs)
    end
  end.

(** Modelled from the spec: opening the store at a location gives the
    collection persisted there, an empty one if there is none. *)
Definition load_vector_store (env : Env) (fs : FS) (persist_directory : pystr)
    : outcome Chroma :=
  _ ← get_embeddings env;
  Ret {| persist_directory := persist_directory;
         collection := default [] (fs !! persist_directory) |}.

(** Modelled from the spec: [a] is at least as similar to the query as [b]. *)
Definition at_least_as_similar (svc : Services) (query : pystr) (a b : Document)
    : Prop :=
  (similarity svc query (page_content b) ≤ similarity svc query (page_content a))%Z.

#[export] Instance at_least_as_similar_dec svc query a b :
  Decision (at_least_as_similar svc query a b).
Proof. unfold at_least_as_similar. apply _. Defined.

(** Modelled from the spec: similarity search returns the [k] stored chunks
    most similar to the query, most similar first. *)
Definition similarity_search (svc : Services) (vs : Chroma) (query : pystr)
    (k : nat) : list Document :=
  take k (merge_sort (at_least_as_similar svc query) (collection vs)).

(** [vectorstore.as_retriever(search_kwargs={"k": k})] *)
Record Retriever := {
  vectorstore : Chroma;
  search_k : nat
}.

Definition as_retriever (vs : Chroma) (k : nat) : Retriever :=
  {| vectorstore := vs; search_k := k |}.

Definition retriever_invoke (svc : Services) (r : Retriever) (query : pystr)
    : list Document :=
  similarity_search svc (vectorstore r) query (search_k r).

Definition dq : N := 34%N.
Definition emdash : N := 8212%N.

(** The prompt template of [build_rag_chain], around its two fields. *)
Definition template_head : pystr :=
  str "You are a warm, supportive life and career coach. Answer the question using the context from your Notion notes below. "
  ++ [newline; newline]
  ++ str "Tone: Be warm, empathetic, and encouraging" ++ [emdash]
  ++ str "like a trusted friend or coach. Use " ++ [dq] ++ str "you" ++ [dq]
  ++ str " and " ++ [dq] ++ str "your" ++ [dq]
  ++ str " to make it personal. Add a brief supportive touch when it fits (e.g., "
  ++ [dq] ++ str "I'm glad you're asking," ++ [dq] ++ str " " ++ [dq]
  ++ str "That's a great question" ++ [dq]
  ++ str "). Keep it genuine, not over-the-top." ++ [newline; newline]
  ++ str "Rules: Use only information from the context" ++ [emdash]
  ++ str "do not invent. If the context has relevant info, answer based on it in your warm voice. Only say something like "
  ++ [dq] ++ str "I'd love to help, but I don't have notes on that yet" ++ [emdash]
  ++ str "try asking about coaching, career, mindset, or manifesting" ++ [dq]
  ++ str " if the context truly has nothing related." ++ [newline; newline]
  ++ str "Context:" ++ [newline].

Definition template_mid : pystr := [newline; newline] ++ str "Question: ".
Definition template_tail : pystr := [newline; newline] ++ str "Answer:".

(** A built chain: [chain.invoke(question).content]. *)
Abbreviation Chain := (pystr → exn + pystr).

Definition build_rag_chain (env : Env) (svc : Services) (vs : Chroma) (k : nat)
    : outcome Chain :=
  let retriever := as_retriever vs k in
  _ ← get_llm env;
  Ret (fun question =>
    let docs := retriever_invoke svc retriever question in
    let context := join ([newline; newline] ++ str "---" ++ [newline; newline])
                        (map page_content docs) in
    complete svc (template_head ++ context ++ template_mid ++ question
                  ++ template_tail)).

Definition ingest (fuel : nat) (env : Env) (svc : Services) (fs : FS)
    (page_ids : option (list pystr)) (database_id data_source_id : option pystr)
    (persist_directory : pystr) : outcome nat * FS :=
  match load_notion_documents fuel env svc page_ids database_id data_source_id with
  | Ret docs =>
    match create_vector_store env svc fs docs persist_directory
            DEFAULT_CHUNK_SIZE DEFAULT_CHUNK_OVERLAP with
    | (Ret _, fs) => (Ret (length docs), fs)
    | (Raise e, fs) => (Raise e, fs)
    | (OutOfFuel, fs) => (OutOfFuel, fs)
    end
  | Raise e => (Raise e, fs)
  | OutOfFuel => (OutOfFuel, fs)
  end.

(** The preview of a retrieved chunk in debug mode (line 156). *)
Definition preview (content : pystr) : pystr :=
  if 200 <? length content then take 200 content ++ str "..." else content.

(** [query]: what it prints (the retrieved chunks, in debug mode) and what
    it returns. *)
Definition query (env : Env) (svc : Services) (fs : FS) (question : pystr)
    (persist_directory : pystr) (debug : bool) : list pystr * outcome pystr :=
  match load_vector_store env fs persist_directory with
  | Ret vs =>
    let retriever := as_retriever vs 8 in
    let printed :=
      if debug then
        let docs := retriever_invoke svc retriever question in
        [str "--- Retrieved chunks ---"]
        ++ map (fun doc => preview (page_content doc)) docs
        ++ [str "--- Answer ---"]
      else [] in
    (printed, chain ← build_rag_chain env svc vs 8; call (chain question))
  | Raise e => ([], Raise e)
  | OutOfFuel => ([], OutOfFuel)
  end.

End rag.

(** ** usage_store.py *)

Module usage_store.

(** The JSON file: per user, a counter per key. The keys are ISO dates; a
    record of the old format has the single key ["prompts_used"]. The file
    is [None] while it does not exist or does not parse. *)
Abbreviation UserRecord := (gmap pystr Z).
Abbreviation Data := (gmap pystr UserRecord).
Abbreviation File := (option Data).

Definition DAILY_LIMIT : Z := 10.

Definition prompts_used : pystr := str "prompts_used".

Definition _load (file : File) : Data := default ∅ file.

Definition _save (data : Data) : File := Some data.

(** [get_usage]; [today] is what [_today()] returns. *)
Definition get_usage (file : File) (today : pystr) (email : pystr) : Z * bool :=
  let data := _load file in
  let user := default ∅ (data !! email) in
  let user :=
    if bool_decide (is_Some (user !! prompts_used))
    then {[ today := default 0%Z (user !! prompts_used) ]}
    else user in
  let used_today := default 0%Z (user !! today) in
  let can_send := bool_decide (used_today < DAILY_LIMIT)%Z in
  (used_today, can_send).

(** [increment_usage]: the file it leaves. *)
Definition increment_usage (file : File) (today : pystr) (email : pystr) : File :=
  let data := _load file in
  let data := if bool_decide (is_Some (data !! email)) then data
              else <[email := ∅]> data in
  let user := default ∅ (data !! email) in
  let user :=
    if bool_decide (is_Some (user !! prompts_used))
       && negb (bool_decide (is_Some (user !! today)))
    then {[ today := default 0%Z (user !! prompts_used) ]}
    else user in
  let user := <[today := (default 0 (user !! today) + 1)%Z]> user in
  let data := <[email := user]> data in
  _save data.

End usage_store.

(** ** Well-formed usage files *)

Module usage_spec.
Import usage_store.

(** The shape of [date.today().isoformat()]: [YYYY-MM-DD]. *)
Definition is_digit (c : N) : bool := ((48 <=? c) && (c <=? 57))%N.

Definition is_iso_date (d : pystr) : bool :=
  match d with
  | [y1; y2; y3; y4; h1; m1; m2; h2; d1; d2] =>
    forallb is_digit [y1; y2; y3; y4; m1; m2; d1; d2]
    && (h1 =? hyphen)%N && (h2 =? hyphen)%N
  | _ => false
  end.

(** A record is of the current format (date keys only) or of the old one
    (the single key ["prompts_used"]): the two shapes the module reads, and
    the only ones it writes. *)
Definition record_ok (r : UserRecord) : Prop :=
  r !! prompts_used = None ∨ ∃ n, r = {[ prompts_used := n ]}.

(** The record stored for a user. *)
Definition record_of (file : File) (email : pystr) : UserRecord :=
  default ∅ (_load file !! email).

(** [n] calls of [increment_usage] for one user on one day. *)
Definition increments (n : nat) (file : File) (today email : pystr) : File :=
  Nat.iter n (fun f => increment_usage f today email) file.

End usage_spec.

(** ** app.py and main.py: the answer boundary *)

Module app.
Import notion_loader rag.

(** [get_rag]: no chain while nothing is persisted at the default location.
    (The result is cached by the web framework; the model is one call.) *)
Definition get_rag (env : Env) (svc : Services) (fs : FS) : outcome (option Chain) :=
  if negb (bool_decide (is_Some (fs !! DEFAULT_PERSIST_DIR))) then Ret None
  else
    vs ← load_vector_store env fs DEFAULT_PERSIST_DIR;
    chain ← build_rag_chain env svc vs 8;
    Ret (Some chain).

Definition no_knowledge_base : pystr :=
  [9888%N; 65039%N]
  ++ str " No knowledge base found. Run ingest first to index your Notion notes.".

Definition went_wrong (e : exn) : pystr :=
  str "Sorry, something went wrong: " ++ exn_str e.

(** The body of [get_answer] once [get_rag()] has returned [chain]. *)
Definition answer_with (chain : option Chain) (question : pystr) : outcome pystr :=
  match chain with
  | None => Ret no_knowledge_base
  | Some chain =>
    try_except (call (chain question)) (fun e => Ret (went_wrong e))
  end.

Definition get_answer (env : Env) (svc : Services) (fs : FS) (question : pystr)
    : outcome pystr :=
  chain ← get_rag env svc fs;
  answer_with chain question.

Definition DAILY_LIMIT_MSG : pystr :=
  str "You've used your 10 prompts for today. " ++ [10024%N; 10%N; 10%N]
  ++ str "Come back tomorrow for more " ++ [8212%N]
  ++ str " your daily limit resets at midnight.".

(** [_try_send_prompt], threading the usage file; [today] is the date of
    the call. *)
Definition _try_send_prompt (env : Env) (svc : Services) (fs : FS)
    (file : usage_store.File) (today email prompt : pystr)
    : outcome (bool * pystr) * usage_store.File :=
  let '(used, can_send) := usage_store.get_usage file today email in
  if negb can_send then (Ret (false, DAILY_LIMIT_MSG), file)
  else
    match get_answer env svc fs prompt with
    | Ret answer => (Ret (true, answer), usage_store.increment_usage file today email)
    | Raise e => (Raise e, file)
    | OutOfFuel => (OutOfFuel, file)
    end.

(** [remaining = max(0, DAILY_LIMIT - used)] of [main]. *)
Definition remaining (used : Z) : Z := Z.max 0 (usage_store.DAILY_LIMIT - used).

End app.

Module main.
Import notion_loader rag.

(** What a command leaves behind: the lines on the two streams and the
    exit status ([None]: it returned). *)
Record Run := {
  stdout : list pystr;
  stderr : list pystr;
  exit_code : option nat
}.

(** [cmd_query]; [db] is [args.db]. *)
Definition cmd_query (env : Env) (svc : Services) (fs : FS) (question : pystr)
    (db : option pystr) (debug : bool) : outcome Run :=
  if negb (env_set (OPENAI_API_KEY env)) then
    Ret {| stdout := [str "Error: OPENAI_API_KEY required"]; stderr := [];
           exit_code := Some 1 |}
  else
    let persist := if env_set db then default [] db else DEFAULT_PERSIST_DIR in
    if negb (bool_decide (is_Some (fs !! persist))) then
      Ret {| stdout := [str "Error: No vector store. Run 'ingest' first."];
             stderr := []; exit_code := Some 1 |}
    else
      match query env svc fs question persist debug with
      | (printed, Ret answer) =>
        Ret {| stdout := printed ++ [answer]; stderr := []; exit_code := None |}
      | (printed, Raise e) =>
        Ret {| stdout := printed; stderr := [str "Query failed: " ++ exn_str e];
               exit_code := Some 1 |}
      | (_, OutOfFuel) => OutOfFuel
      end.

(** The further environment variables the command line reads. *)
Record Environ := {
  keys : Env;
  NOTION_PAGE_IDS : option pystr;
  NOTION_DATABASE_ID : option pystr;
  NOTION_DATA_SOURCE_ID : option pystr
}.

(** The parsed arguments of the [ingest] command. *)
Record IngestArgs := {
  arg_page_ids : option pystr;
  arg_database_id : option pystr;
  arg_data_source_id : option pystr;
  arg_output : option pystr
}.

Definition comma : N := 44%N.

(** [[p.strip() for p in raw.split(",") if p.strip()]] *)
Definition parse_ids (raw : pystr) : list pystr :=
  map strip (List.filter (fun p => truthy (strip p)) (split comma raw)).

Definition _get_page_ids (environ : Environ) : list pystr :=
  parse_ids (default [] (NOTION_PAGE_IDS environ)).

(** [a or b] on optional strings. *)
Definition or_opt (a b : option pystr) : option pystr :=
  if env_set a then a else b.

(** [cmd_ingest], threading the file system. *)
Definition cmd_ingest (fuel : nat) (environ : Environ) (svc : Services) (fs : FS)
    (args : IngestArgs) : outcome Run * FS :=
  let page_ids := if env_set (arg_page_ids args)
                  then parse_ids (default [] (arg_page_ids args))
                  else _get_page_ids environ in
  let database_id := or_opt (arg_database_id args) (NOTION_DATABASE_ID environ) in
  let data_source_id :=
    or_opt (arg_data_source_id args) (NOTION_DATA_SOURCE_ID environ) in
  if match page_ids with [] => true | _ => false end
     && negb (env_set database_id) && negb (env_set data_source_id) then
    (Ret {| stdout := [str "Error: Provide --page-ids, --database-id, or --data-source-id"];
            stderr := []; exit_code := Some 1 |}, fs)
  else if negb (env_set (NOTION_API_KEY (keys environ))) then
    (Ret {| stdout := [str "Error: NOTION_API_KEY required"]; stderr := [];
            exit_code := Some 1 |}, fs)
  else if negb (env_set (OPENAI_API_KEY (keys environ))) then
    (Ret {| stdout := [str "Error: OPENAI_API_KEY required"]; stderr := [];
            exit_code := Some 1 |}, fs)
  else
    match ingest fuel (keys environ) svc fs
            (match page_ids with [] => None | _ => Some page_ids end)
            database_id data_source_id
            (if env_set (arg_output args) then default [] (arg_output args)
             else DEFAULT_PERSIST_DIR) with
    | (Ret n, fs) =>
      (Ret {| stdout := [str "Ingested " ++ decimal n ++ str " document(s)."];
              stderr := []; exit_code := None |}, fs)
    | (Raise e, fs) =>
      (Ret {| stdout := []; stderr := [str "Ingest failed: " ++ exn_str e];
              exit_code := Some 1 |}, fs)
    | (OutOfFuel, fs) => (OutOfFuel, fs)
    end.

End main.

(** ** explore_notes.py *)

Module explore_notes.
Import notion_loader.

(** The inner loop of [_get_titles_only]: the title of the first property
    of type [title], if there is one. *)
Fixpoint first_title (props : list (pystr * Property)) : option pystr :=
  match props with
  | (name, prop) :: rest =>
    if eqb (prop_type prop) (str "title") then
      let t := _extract_rich_text (prop_title prop) in
      Some (if truthy t then t else str "Untitled")
    else first_title rest
  | [] => None
  end.

(** [_get_titles_only(limit)]; [DS_ID] is the module constant. *)
Definition _get_titles_only (notion : Client) (DS_ID : pystr) (limit : nat)
    : exn + list pystr :=
  let ds_id := if length DS_ID =? 32 then hyphenate DS_ID else DS_ID in
  match data_sources_query notion ds_id limit None with
  | inr resp => inr (omap (fun p => first_title (properties p)) (results resp))
  | inl e => inl e
  end.

End explore_notes.

(** ** auth_patch.py *)

Module auth_patch.

Section integration.

(** The state data kept for a login in progress, the clock values, and
    the cache of the framework, none of which the patch looks into: the
    cache is any store with the three operations the patch calls. *)
Variables Data Time Cache : Type.
Variable plus : Time → Time → Time.
Variable cache_set : pystr → pystr → Time → Cache → Cache.
Variable cache_get : pystr → Cache → option pystr.
Variable cache_delete : pystr → Cache → Cache.

(** A value kept under a state key: a JSON object with an optional
    ["data"] and an optional ["exp"]. *)
Record Entry := {
  entry_data : option Data;
  entry_exp : option Time
}.

(** [json.dumps({"data": data})], and [json.loads], which gives no entry
    where it raises [TypeError] or [ValueError]. *)
Variable dumps : Data → pystr.
Variable loads : pystr → option Entry.

(** [self._clear_session_state(session)] of the patched class. *)
Variable _clear_session_state : gmap pystr Entry → gmap pystr Entry.

(** The integration object: its name and the lifetime of a state; its
    cache is passed beside it, [None] where [self.cache] is false. *)
Record Integration := {
  name : pystr;
  expires_in : Time
}.

(** The session is [None] under Streamlit. *)
Definition Session : Type := option (gmap pystr Entry).

(** [f"_state_{self.name}_{state}"] *)
Definition state_key (self : Integration) (state : pystr) : pystr :=
  str "_state_" ++ name self ++ str "_" ++ state.

(** Truth value of an entry: a non-empty object. *)
Definition entry_truthy (e : option Entry) : bool :=
  match e with
  | Some e => bool_decide (is_Some (entry_data e)) || bool_decide (is_Some (entry_exp e))
  | None => false
  end.

(** [_patched_set_state_data]; [now] is [time.time()]. It returns the
    session and the cache as it leaves them. *)
Definition _patched_set_state_data (self : Integration) (cache : option Cache)
    (now : Time) (session : Session) (state : pystr) (data : Data)
    : Session * option Cache :=
  let key := state_key self state in
  match cache with
  | Some c =>
    let c := cache_set key (dumps data) (expires_in self) c in
    (match session with
     | Some s =>
       Some (<[key := {| entry_data := None;
                         entry_exp := Some (plus now (expires_in self)) |}]> s)
     | None => None
     end, Some c)
  | None =>
    (match session with
     | Some s =>
       Some (<[key := {| entry_data := Some data;
                         entry_exp := Some (plus now (expires_in self)) |}]> s)
     | None => None
     end, None)
  end.

Definition _patched_get_state_data (self : Integration) (cache : option Cache)
    (session : Session) (state : pystr) : option Data :=
  let key := state_key self state in
  let session_data :=
    match session with
    | Some s => s !! key
    | None => None
    end in
  if negb (entry_truthy session_data) then
    match cache with
    | Some c =>
      let session_data :=
        match cache_get key c with
        | Some cached =>
          if truthy cached then
            match loads cached with
            | Some loaded => Some loaded
            | None => session_data
            end
          else session_data
        | None => session_data
        end in
      if entry_truthy session_data
      then session_data ≫= entry_data
      else None
    | None => None
    end
  else session_data ≫= entry_data.

Definition _patched_clear_state_data (self : Integration) (cache : option Cache)
    (session : Session) (state : pystr) : Session * option Cache :=
  let key := state_key self state in
  let cache := match cache with
               | Some c => Some (cache_delete key c)
               | None => None
               end in
  (match session with
   | Some s => Some (_clear_session_state (delete key s))
   | None => None
   end, cache).

End integration.

End auth_patch.

(** ** The block tree a traversal reads *)

Module notion_spec.
Import notion_loader.

(** What the service shows below one block, as a traversal meets it: the
    pages of the child listing in cursor order, each with its blocks; a
    block the traversal descends into carries its own children. A listing
    ends with a page that reports nothing more, or with a call that
    raises. *)
Inductive Children :=
  | LastPage (blocks : Forest)
  | NextPage (blocks : Forest) (cursor : option pystr) (rest : Children)
  | Failure (e : exn)
with Forest :=
  | FNil
  | FLeaf (b : Block) (rest : Forest)
  | FNode (b : Block) (below : Children) (rest : Forest).

Scheme Children_mut := Induction for Children Sort Prop
  with Forest_mut := Induction for Forest Sort Prop.

(** The blocks of one page, as the response lists them. *)
Fixpoint roots (f : Forest) : list Block :=
  match f with
  | FNil => []
  | FLeaf b rest => b :: roots rest
  | FNode b _ rest => b :: roots rest
  end.

Definition visible (b : Block) : bool := negb (archived b || in_trash b).

(** The blocks [_fetch_blocks_recursive] descends into. *)
Definition descends (b : Block) : bool := visible b && has_children b.

(** The blocks [_fetch_block_text_full] descends into. *)
Definition descends_full (b : Block) : bool :=
  visible b && negb (eqb (type b) (str "unsupported")) && has_children b.

(** The service answers the listing calls of a traversal of [block_id],
    from [cursor] on, as the tree says. *)
Fixpoint serves (descend : Block → bool) (notion : Client) (c : Children)
    (block_id : pystr) (cursor : option pystr) {struct c} : Prop :=
  match blocks_children_list notion block_id 100 cursor, c with
  | inr resp, LastPage f =>
    results resp = roots f ∧ has_more resp = false
    ∧ serves_forest descend notion f
  | inr resp, NextPage f next rest =>
    results resp = roots f ∧ has_more resp = true ∧ next_cursor resp = next
    ∧ serves_forest descend notion f
    ∧ serves descend notion rest block_id next
  | inl e', Failure e => e' = e
  | _, _ => False
  end
with serves_forest (descend : Block → bool) (notion : Client) (f : Forest)
    {struct f} : Prop :=
  match f with
  | FNil => True
  | FLeaf b rest => descend b = false ∧ serves_forest descend notion rest
  | FNode b below rest =>
    descend b = true ∧ serves descend notion below (id b) None
    ∧ serves_forest descend notion rest
  end.

(** The number of listing calls a traversal of the tree makes. *)
Fixpoint calls (c : Children) : nat :=
  match c with
  | LastPage f => 1 + forest_calls f
  | NextPage f _ rest => 1 + forest_calls f + calls rest
  | Failure _ => 1
  end
with forest_calls (f : Forest) : nat :=
  match f with
  | FNil => 0
  | FLeaf _ rest => forest_calls rest
  | FNode _ below rest => calls below + forest_calls rest
  end.

(** The first call that raises, in traversal order. *)
Fixpoint first_failure (c : Children) : option exn :=
  match c with
  | LastPage f => forest_failure f
  | NextPage f _ rest =>
    match forest_failure f with
    | Some e => Some e
    | None => first_failure rest
    end
  | Failure e => Some e
  end
with forest_failure (f : Forest) : option exn :=
  match f with
  | FNil => None
  | FLeaf _ rest => forest_failure rest
  | FNode _ below rest =>
    match first_failure below with
    | Some e => Some e
    | None => forest_failure rest
    end
  end.

(** The text a block contributes to the reading order: its extracted text,
    stripped, unless that is empty. *)
Definition own_text (b : Block) : list pystr :=
  let text := strip (_extract_block_text b) in
  if truthy text then [text] else [].

(** Reading order: page after page; within a page block after block; for a
    block its own text first, then all that is below it. *)
Fixpoint reading_order (c : Children) : list pystr :=
  match c with
  | LastPage f => forest_reading_order f
  | NextPage f _ rest => forest_reading_order f ++ reading_order rest
  | Failure _ => []
  end
with forest_reading_order (f : Forest) : list pystr :=
  match f with
  | FNil => []
  | FLeaf b rest =>
    (if visible b then own_text b else []) ++ forest_reading_order rest
  | FNode b below rest =>
    own_text b ++ reading_order below ++ forest_reading_order rest
  end.

(** The text a block contributes to the content of a data-source row. *)
Definition own_text_full (b : Block) : list pystr :=
  match rich_text (data b) with
  | Some rt =>
    let txt := _extract_rich_text rt in
    if truthy txt then [txt] else []
  | None =>
    if eqb (type b) (str "child_page") then [or_else (title (data b)) []] else []
  end.

(** The parts gathered for a row up to the end of the listing or to the
    call that raises; what is below a block is one part, already joined. *)
Fixpoint full_parts (c : Children) : list pystr :=
  match c with
  | LastPage f => forest_full_parts f
  | NextPage f _ rest => forest_full_parts f ++ full_parts rest
  | Failure _ => []
  end
with forest_full_parts (f : Forest) : list pystr :=
  match f with
  | FNil => []
  | FLeaf b rest =>
    (if visible b && negb (eqb (type b) (str "unsupported"))
     then own_text_full b else []) ++ forest_full_parts rest
  | FNode b below rest =>
    own_text_full b ++ [join_parts (full_parts below)] ++ forest_full_parts rest
  end.

Definition full_text (c : Children) : pystr := join_parts (full_parts c).

(** The rows of a data source as its listing shows them, each with the
    block tree below it. *)
Inductive Rows :=
  | LastRows (rows : list (Page * Children))
  | NextRows (rows : list (Page * Children)) (cursor : option pystr) (rest : Rows)
  | RowsFailure (e : exn).

Fixpoint all_rows (r : Rows) : list (Page * Children) :=
  match r with
  | LastRows rows => rows
  | NextRows rows _ rest => rows ++ all_rows rest
  | RowsFailure _ => []
  end.

Definition rows_failure_free (r : Rows) : Prop :=
  (fix go r := match r with
               | LastRows _ => True
               | NextRows _ _ rest => go rest
               | RowsFailure _ => False
               end) r.

Fixpoint rows_end (r : Rows) : outcome unit :=
  match r with
  | LastRows _ => Ret tt
  | NextRows _ _ rest => rows_end rest
  | RowsFailure e => Raise e
  end.

Definition row_served (notion : Client) (row : Page * Children) : Prop :=
  serves descends_full notion row.2 (page_id row.1) None.

Fixpoint serves_rows (notion : Client) (r : Rows) (ds_id : pystr)
    (cursor : option pystr) : Prop :=
  match data_sources_query notion ds_id 100 cursor, r with
  | inr resp, LastRows rows =>
    results resp = map fst rows ∧ has_more resp = false
    ∧ Forall (row_served notion) rows
  | inr resp, NextRows rows next rest =>
    results resp = map fst rows ∧ has_more resp = true ∧ next_cursor resp = next
    ∧ Forall (row_served notion) rows
    ∧ serves_rows notion rest ds_id next
  | inl e', RowsFailure e => e' = e
  | _, _ => False
  end.

Definition row_calls (rows : list (Page * Children)) : nat :=
  list_sum (map (fun row => calls row.2) rows).

Fixpoint rows_calls (r : Rows) : nat :=
  match r with
  | LastRows rows => 1 + row_calls rows
  | NextRows rows _ rest => 1 + row_calls rows + rows_calls rest
  | RowsFailure _ => 1
  end.

(** The document a row yields. *)
Definition row_document (row : Page * Children) : Document :=
  let title := _get_page_title_from_props (properties row.1) in
  let content := full_text row.2 in
  {| page_content := if truthy (strip content) then content else placeholder title;
     source := page_id row.1;
     doc_title := title |}.

(** What [_fetch_blocks_recursive] makes of a tree, after [parts]. *)
Definition blocks_result (c : Children) (parts : list pystr) : outcome (list pystr) :=
  match first_failure c with
  | Some e => Raise e
  | None => Ret (parts ++ reading_order c)
  end.

Definition forest_result (f : Forest) (parts : list pystr) : outcome (list pystr) :=
  match forest_failure f with
  | Some e => Raise e
  | None => Ret (parts ++ forest_reading_order f)
  end.

(** The statement for a listing, and the one for the blocks of a page. *)
Definition follows_children (notion : Client) (c : Children) : Prop :=
  ∀ fuel block_id cursor parts,
    serves descends notion c block_id cursor → calls c ≤ fuel →
    blocks_recursive_while fuel notion block_id cursor parts
    = blocks_result c parts.

Definition follows_forest (notion : Client) (f : Forest) : Prop :=
  ∀ fuel parts,
    serves_forest descends notion f → forest_calls f ≤ fuel →
    blocks_recursive_for
      (fun child => blocks_recursive_while fuel notion child None [])
      (roots f) parts
    = forest_result f parts.

End notion_spec.

(** ** Notions used to state further properties *)

Module main_spec.
Import notion_loader rag main.

(** An identifier as the parser returns it: not empty, no white space
    around it, no comma in it. *)
Definition clean_id (p : pystr) : Prop := p ≠ [] ∧ strip p = p ∧ comma ∉ p.

(** The three sources an [ingest] command ends up with. *)
Definition chosen_page_ids (environ : Environ) (args : IngestArgs) : list pystr :=
  if env_set (arg_page_ids args)
  then parse_ids (default [] (arg_page_ids args))
  else _get_page_ids environ.

Definition no_source (environ : Environ) (args : IngestArgs) : Prop :=
  chosen_page_ids environ args = []
  ∧ env_set (or_opt (arg_database_id args) (NOTION_DATABASE_ID environ)) = false
  ∧ env_set (or_opt (arg_data_source_id args) (NOTION_DATA_SOURCE_ID environ)) = false.

Definition failed_run (out err : list pystr) : Run :=
  {| stdout := out; stderr := err; exit_code := Some 1 |}.

End main_spec.

Module app_spec.
Import notion_loader rag app.



End app_spec.

Module rag_spec.
Import notion_loader rag.

(** An entry of [page_ids] that is taken for a page identifier. *)
Definition valid_page_id (raw_id : pystr) : bool := length (normalize raw_id) =? 32.

(** What the database loader contributes: its documents, or nothing when
    no database is named or the loader raises. *)
Definition database_docs (env : Env) (svc : Services) (database_id : option pystr)
    : list Document :=
  if env_set database_id then
    match NotionDBLoader_load svc (NOTION_API_KEY env)
            (remove_hyphens (strip (default [] database_id))) with
    | inr loaded => loaded
    | inl _ => []
    end
  else [].

End rag_spec.

(** A small workspace to run the definitions on: one data source with two
    rows, the first with two pages of blocks and a nested block, the second
    with a block listing that fails. *)
Module sample.
Import notion_loader rag.

Definition span (text : string) : RichItem :=
  {| plain_text := Some (str text); text_content := None |}.

Definition paragraph (block_id text : string) (children : bool) : Block :=
  {| id := str block_id; archived := false; in_trash := false;
     type := str "paragraph";
     data := {| rich_text := Some [span text]; title := None; url := None;
                expression := None |};
     has_children := children |}.

Definition titled (name : string) (spans : list RichItem) : list (pystr * Property) :=
  [(str "Tags", {| prop_type := str "multi_select"; prop_title := [] |});
   (str name, {| prop_type := str "title"; prop_title := spans |})].

Definition row1 : Page :=
  {| page_id := str "row1"; properties := titled "Name" [span "Pricing"] |}.
Definition row2 : Page :=
  {| page_id := str "row2"; properties := titled "Name" [] |}.

Definition offline : exn := ServiceError (str "offline").

Definition client : Client :=
  {| blocks_children_list := fun block_id _ cursor =>
       if eqb block_id (str "row1") then
         match cursor with
         | None =>
           inr {| results := [paragraph "b1" "  Sessions are 45 minutes. " false;
                              paragraph "b2" "Packages" true];
                  has_more := true; next_cursor := Some (str "c2") |}
         | Some _ =>
           inr {| results := [paragraph "b4" "Contact" false];
                  has_more := false; next_cursor := None |}
         end
       else if eqb block_id (str "b2") then
         inr {| results := [paragraph "b3" "Five sessions" false];
                has_more := false; next_cursor := None |}
       else inl offline;
     pages_retrieve := fun page_id =>
       if eqb page_id (str "row1") then inr row1 else inl offline;
     data_sources_query := fun ds_id _ _ =>
       if eqb ds_id (str "ds1")
       then inr {| results := [row1; row2]; has_more := false; next_cursor := None |}
       else inl offline;
     search_data_sources := fun _ =>
       inr {| results := [{| ds_ref_id := None |};
                          {| ds_ref_id := Some (str "gone") |};
                          {| ds_ref_id := Some (str "ds1") |}];
              has_more := false; next_cursor := None |} |}.

Definition services : Services :=
  {| notion := client;
     NotionDBLoader_load := fun _ _ => inl offline;
     complete := fun prompt => inr (str "You can book a session.");
     similarity := fun _ _ => 0%Z;
     Chroma_from_documents := fun chunks => inr chunks |}.

Definition env : Env :=
  {| NOTION_API_KEY := Some (str "secret"); OPENAI_API_KEY := Some (str "sk-1") |}.

End sample.

Module loader_spec.
Import notion_loader rag.

(** A property of type [title]. *)
Definition is_title (entry : pystr * Property) : bool :=
  eqb (prop_type entry.2) (str "title").

(** A search result [discover_data_source_from_page] can return: it has a
    non-empty identifier and a trial query under it does not raise. *)
Definition usable (notion : Client) (c : DataSourceRef) : option pystr :=
  match ds_ref_id c with
  | Some ds_id =>
    if truthy ds_id then
      match data_sources_query notion ds_id 1 None with
      | inr _ => Some ds_id
      | inl _ => None
      end
    else None
  | None => None
  end.

(** A part of the reading order as [_fetch_blocks_recursive] keeps it: not
    empty, and without white space at either end. *)
Definition stripped_part (p : pystr) : Prop := p ≠ [] ∧ strip p = p.

End loader_spec.

Module sample_auth.
Import auth_patch.

(** A cache kept as a finite map, and a codec that writes the data as it
    is, to run the state store on. *)
Definition map_cache_set (key value : pystr) (ttl : nat) (c : gmap pystr pystr)
    : gmap pystr pystr := <[key := value]> c.
Definition map_cache_get (key : pystr) (c : gmap pystr pystr) : option pystr :=
  c !! key.
Definition text_loads (text : pystr) : option (Entry pystr nat) :=
  Some {| entry_data := Some text; entry_exp := None |}.
Definition google : Integration nat := {| name := str "google"; expires_in := 3600 |}.

End sample_auth.
(** * Properties *)

(** ** Stripping and identifier forms *)

Section strip_facts.

Lemma lstrip_spaces (ws s : pystr) :
  forallb is_space ws = true → lstrip (ws ++ s) = lstrip s.
Proof.
  induction ws as [|c ws IH]; simpl; [done|].
  intros [Hc Hws]%andb_true_iff. rewrite Hc. auto.
Qed.

Lemma lstrip_length (s : pystr) : length (lstrip s) ≤ length s.
Proof.
  induction s as [|c s IH]; simpl; [lia|].
  destruct (is_space c); simpl; lia.
Qed.

Lemma lstrip_fixed (s : pystr) : length (lstrip s) = length s → lstrip s = s.
Proof.
  destruct s as [|c s]; simpl; [done|].
  destruct (is_space c); [|done].
  pose proof (lstrip_length s). lia.
Qed.

Lemma lstrip_app (s t : pystr) : lstrip s ≠ [] → lstrip (s ++ t) = lstrip s ++ t.
Proof.
  induction s as [|c s IH]; simpl; [done|].
  destruct (is_space c); auto.
Qed.

Lemma rstrip_spaces (s ws : pystr) :
  forallb is_space ws = true → rstrip (s ++ ws) = rstrip s.
Proof.
  intros Hws. unfold rstrip. rewrite rev_app_distr, lstrip_spaces; [done|].
  rewrite forallb_forall in *. intros c Hc. apply Hws. by apply in_rev.
Qed.

Lemma rstrip_length (s : pystr) : length (rstrip s) ≤ length s.
Proof.
  unfold rstrip. rewrite length_rev.
  pose proof (lstrip_length (rev s)) as H. by rewrite length_rev in H.
Qed.

(** A string that [strip] leaves alone is left alone by both halves. *)
Lemma strip_fixed_lstrip (s : pystr) : strip s = s → lstrip s = s.
Proof.
  intros H. apply lstrip_fixed.
  pose proof (rstrip_length (lstrip s)) as H1.
  pose proof (lstrip_length s) as H2.
  unfold strip in H. rewrite H in H1. lia.
Qed.

Lemma strip_fixed_rstrip (s : pystr) : strip s = s → rstrip s = s.
Proof.
  intros H. pose proof (strip_fixed_lstrip s H) as Hl.
  unfold strip in H. by rewrite Hl in H.
Qed.

(** White space added around a string with a non-blank core is removed. *)
Lemma strip_padded (ws1 s ws2 : pystr) :
  forallb is_space ws1 = true → forallb is_space ws2 = true →
  lstrip s ≠ [] → strip (ws1 ++ s ++ ws2) = strip s.
Proof.
  intros H1 H2 Hs. unfold strip.
  by rewrite lstrip_spaces, lstrip_app, rstrip_spaces.
Qed.

Lemma strip_fixed_padded (ws1 s ws2 : pystr) :
  forallb is_space ws1 = true → forallb is_space ws2 = true →
  s ≠ [] → strip s = s → strip (ws1 ++ s ++ ws2) = s.
Proof.
  intros H1 H2 Hne Hs. rewrite strip_padded; [done..|].
  by rewrite strip_fixed_lstrip.
Qed.

Lemma lstrip_head (c : N) (s : pystr) : lstrip (c :: s) = c :: s ↔ is_space c = false.
Proof.
  simpl. destruct (is_space c) eqn:Hc; [|done].
  split; [|done]. intros H. pose proof (lstrip_length s) as Hl.
  rewrite H in Hl. simpl in Hl. lia.
Qed.

End strip_facts.

Section identifier_forms.
Import notion_loader.

Lemma rstrip_fixed_rev (s : pystr) : rstrip s = s → lstrip (rev s) = rev s.
Proof. unfold rstrip. intros H. rewrite <- H at 2. by rewrite rev_involutive. Qed.

Lemma lstrip_fixed_take (n : nat) (s : pystr) :
  lstrip s = s → lstrip (take n s) = take n s.
Proof.
  destruct s as [|c s], n as [|n]; try done.
  intros H%lstrip_head. simpl. by rewrite H.
Qed.

Lemma lstrip_fixed_app (a b : pystr) :
  a ≠ [] → lstrip a = a → lstrip (a ++ b) = a ++ b.
Proof. intros Ha H. rewrite lstrip_app; rewrite H; done. Qed.

Lemma rstrip_fixed_app (a b : pystr) :
  b ≠ [] → rstrip b = b → rstrip (a ++ b) = a ++ b.
Proof.
  intros Hb H%rstrip_fixed_rev. unfold rstrip.
  rewrite rev_app_distr, lstrip_fixed_app, <- rev_app_distr, rev_involutive; [done| |done].
  intros Hr. apply Hb. by rewrite <- (rev_involutive b), Hr.
Qed.

Lemma rstrip_fixed_drop (n : nat) (s : pystr) :
  n ≤ length s → rstrip s = s → rstrip (drop n s) = drop n s.
Proof.
  intros Hn H%rstrip_fixed_rev. unfold rstrip.
  assert (rev (drop n s) = take (length s - n) (rev s)) as ->.
  { rewrite firstn_rev. do 2 f_equal. lia. }
  rewrite lstrip_fixed_take by done.
  rewrite firstn_rev, rev_involutive. f_equal. lia.
Qed.

Lemma remove_hyphens_app (a b : pystr) :
  remove_hyphens (a ++ b) = remove_hyphens a ++ remove_hyphens b.
Proof. apply List.filter_app. Qed.

Lemma remove_hyphens_id (s : pystr) : hyphen ∉ s → remove_hyphens s = s.
Proof.
  induction s as [|c s IH]; [done|].
  intros [Hc Hs]%not_elem_of_cons. simpl.
  destruct (N.eqb_spec c hyphen) as [->|_]; [done|]. simpl. by rewrite IH.
Qed.

Lemma remove_hyphens_take (n : nat) (s : pystr) :
  hyphen ∉ s → remove_hyphens (take n s) = take n s.
Proof.
  intros H. apply remove_hyphens_id. intros Hin. apply H.
  by eapply subseteq_take.
Qed.

Lemma remove_hyphens_drop (n : nat) (s : pystr) :
  hyphen ∉ s → remove_hyphens (drop n s) = drop n s.
Proof.
  intros H. apply remove_hyphens_id. intros Hin. apply H.
  by eapply subseteq_drop.
Qed.

Lemma slice_drop (a b : nat) (s : pystr) :
  a ≤ b → slice a b s ++ drop b s = drop a s.
Proof.
  intros Hab. unfold slice.
  replace (drop b s) with (drop (b - a) (drop a s)).
  - apply take_drop.
  - rewrite drop_drop. f_equal. lia.
Qed.

(** Removing the hyphens of the 8-4-4-4-12 form gives the compact form back. *)
Lemma remove_hyphens_hyphenate (s : pystr) :
  hyphen ∉ s → remove_hyphens (hyphenate s) = s.
Proof.
  intros H. unfold hyphenate, slice.
  rewrite !remove_hyphens_app, !remove_hyphens_take, remove_hyphens_drop
    by (try done; intros Hin; apply H; by eapply subseteq_drop).
  change (remove_hyphens [hyphen]) with (@nil N). simpl.
  change (take 4 (drop 8 s)) with (slice 8 12 s).
  change (take 4 (drop 12 s)) with (slice 12 16 s).
  change (take 4 (drop 16 s)) with (slice 16 20 s).
  rewrite !slice_drop by lia. apply take_drop.
Qed.

Lemma strip_hyphenate (s : pystr) :
  20 < length s → strip s = s → strip (hyphenate s) = hyphenate s.
Proof.
  intros Hlen Hs. unfold strip.
  assert (lstrip (hyphenate s) = hyphenate s) as ->.
  { unfold hyphenate, slice. simpl. apply lstrip_fixed_app.
    - destruct s; simpl in *; [lia|done].
    - by apply lstrip_fixed_take, strip_fixed_lstrip. }
  unfold hyphenate. rewrite !app_assoc. apply rstrip_fixed_app.
  - intros Hd. apply (f_equal length) in Hd. rewrite length_drop in Hd.
    simpl in Hd. lia.
  - apply rstrip_fixed_drop; [lia|]. by apply strip_fixed_rstrip.
Qed.

Lemma hyphenate_nonempty (s : pystr) : hyphenate s ≠ [].
Proof.
  unfold hyphenate. intros H%(f_equal length).
  rewrite !length_app in H. simpl in H. lia.
Qed.

(** Both written forms of an identifier, bare or padded with white space,
    are stored by the constructors as the compact form. *)
Lemma normalize_forms (s ws1 ws2 x : pystr) :
  length s = 32 → hyphen ∉ s → strip s = s →
  forallb is_space ws1 = true → forallb is_space ws2 = true →
  x ∈ [s; hyphenate s; ws1 ++ s ++ ws2; ws1 ++ hyphenate s ++ ws2] →
  remove_hyphens (strip x) = s ∧ truthy (strip x) = true.
Proof.
  intros Hlen Hhy Hs H1 H2 Hx.
  assert (s ≠ []) as Hne by (intros ->; simpl in Hlen; lia).
  assert (strip (hyphenate s) = hyphenate s) as Hh
    by (apply strip_hyphenate; [lia|done]).
  assert (truthy s = true) as Hts by (by destruct s).
  assert (truthy (hyphenate s) = true) as Hth.
  { pose proof (hyphenate_nonempty s). by destruct (hyphenate s). }
  rewrite !elem_of_cons, elem_of_nil in Hx.
  destruct Hx as [->|[->|[->|[->|[]]]]].
  - rewrite Hs. by rewrite remove_hyphens_id.
  - rewrite Hh. by rewrite remove_hyphens_hyphenate.
  - rewrite strip_fixed_padded by done. by rewrite remove_hyphens_id.
  - rewrite strip_fixed_padded by (done || apply hyphenate_nonempty).
    by rewrite remove_hyphens_hyphenate.
Qed.

End identifier_forms.

(** ** Identifier normalisation in the two loaders *)

Section loaders_normalize.
Import notion_loader.

(** C4. Identifier normalisation is form-insensitive: a 32-character
    identifier without hyphens, its hyphenated 8-4-4-4-12 form, and either
    of them padded with white space are all turned by [NotionPageLoader] and
    by [NotionDataSourceLoader] into the same hyphenated identifier, the one
    the service is then called with. *)
Theorem id_normalization_form_insensitive
    (s ws1 ws2 x : pystr) (token env_key : option pystr) (tok : pystr) :
  length s = 32 → hyphen ∉ s → strip s = s →
  forallb is_space ws1 = true → forallb is_space ws2 = true →
  resolve_token token env_key = inr tok →
  x ∈ [s; hyphenate s; ws1 ++ s ++ ws2; ws1 ++ hyphenate s ++ ws2] →
  (∃ L, NotionPageLoader.__init__ [x] token env_key = inr L
        ∧ map NotionPageLoader.page_id_of (NotionPageLoader.page_ids L)
          = [hyphenate s])
  ∧ (∃ L, NotionDataSourceLoader.__init__ x token env_key = inr L
          ∧ NotionDataSourceLoader.ds_id_of L = hyphenate s).
Proof.
  intros Hlen Hhy Hs H1 H2 Htok Hx.
  destruct (normalize_forms s ws1 ws2 x) as [Hn Ht]; [done..|].
  split.
  - unfold NotionPageLoader.__init__. rewrite Htok. eexists; split; [done|].
    simpl. rewrite Ht. simpl. rewrite Hn.
    unfold NotionPageLoader.page_id_of. by rewrite Hlen.
  - unfold NotionDataSourceLoader.__init__. rewrite Htok. eexists; split; [done|].
    unfold NotionDataSourceLoader.ds_id_of. simpl. rewrite Hn. by rewrite Hlen.
Qed.

Definition sample_id : pystr := str "5bcc97fa499e4e61988532bb5e72edda".

Lemma id_normalization_form_insensitive_witness :
  (∃ L, NotionPageLoader.__init__
          [str "  " ++ hyphenate sample_id ++ [10%N]] (Some (str "secret")) None
        = inr L
        ∧ map NotionPageLoader.page_id_of (NotionPageLoader.page_ids L)
          = [str "5bcc97fa-499e-4e61-9885-32bb5e72edda"])
  ∧ (∃ L, NotionDataSourceLoader.__init__
            (str "  " ++ hyphenate sample_id ++ [10%N]) (Some (str "secret")) None
          = inr L
          ∧ NotionDataSourceLoader.ds_id_of L
            = str "5bcc97fa-499e-4e61-9885-32bb5e72edda").
Proof.
  apply (id_normalization_form_insensitive sample_id (str "  ") [10%N]
           (str "  " ++ hyphenate sample_id ++ [10%N])
           (Some (str "secret")) None (str "secret")).
  - reflexivity.
  - apply (bool_decide_unpack _). vm_compute. reflexivity.
  - reflexivity.
  - reflexivity.
  - reflexivity.
  - reflexivity.
  - apply (bool_decide_unpack _). vm_compute. reflexivity.
Defined.

End loaders_normalize.

(** ** The daily quota *)

Section quota.
Import usage_store usage_spec.

Lemma iso_date_not_legacy_key (d : pystr) : is_iso_date d = true → d ≠ prompts_used.
Proof.
  intros H ->. vm_compute in H. discriminate.
Qed.

Lemma record_of_increment (file : File) (today email : pystr) :
  today ≠ prompts_used → record_ok (record_of file email) →
  record_of (increment_usage file today email) email
  = <[today := ((get_usage file today email).1 + 1)%Z]>
      (if bool_decide (is_Some (record_of file email !! prompts_used))
       then ∅ else record_of file email).
Proof.
  intros Hd Hok. unfold record_ok in Hok.
  unfold record_of, increment_usage, get_usage, _save in *. simpl.
  set (data := _load file) in *.
  rewrite lookup_insert_eq. simpl.
  assert (default ∅ ((if bool_decide (is_Some (data !! email)) then data
                      else <[email:=∅]> data) !! email)
          = default ∅ (data !! email)) as ->.
  { case_bool_decide as Hin; [done|]. rewrite lookup_insert_eq. simpl.
    destruct (data !! email) eqn:E; [|done]. destruct Hin. by eexists. }
  set (user := default ∅ (data !! email)) in *.
  destruct Hok as [Hcur|[n Hold]].
  - rewrite Hcur. rewrite !bool_decide_eq_false_2 by (by intros [? ?]). done.
  - rewrite Hold. rewrite lookup_singleton_eq.
    rewrite lookup_singleton_ne by done.
    rewrite !bool_decide_eq_true_2 by (by eexists).
    rewrite bool_decide_eq_false_2 by (by intros [? ?]). simpl.
    rewrite lookup_singleton_eq. simpl.
    by rewrite insert_singleton_eq, insert_empty.
Qed.

Lemma record_ok_increment (file : File) (today email : pystr) :
  today ≠ prompts_used → record_ok (record_of file email) →
  record_of (increment_usage file today email) email !! prompts_used = None.
Proof.
  intros Hd Hok. rewrite record_of_increment by done.
  rewrite lookup_insert_ne by done.
  case_bool_decide as H; [done|].
  destruct (record_of file email !! prompts_used) eqn:E; [|done].
  destruct H. by eexists.
Qed.

Lemma get_usage_record (file : File) (today email : pystr) :
  record_of file email !! prompts_used = None →
  get_usage file today email
  = (default 0%Z (record_of file email !! today),
     bool_decide (default 0 (record_of file email !! today) < DAILY_LIMIT)%Z).
Proof.
  intros H. unfold get_usage, record_of in *. rewrite H.
  by rewrite bool_decide_eq_false_2 by (by intros [? ?]).
Qed.

(** One call adds one to the count of the day. *)
Lemma get_usage_increment (file : File) (today email : pystr) :
  today ≠ prompts_used → record_ok (record_of file email) →
  (get_usage (increment_usage file today email) today email).1
  = ((get_usage file today email).1 + 1)%Z.
Proof.
  intros Hd Hok. rewrite get_usage_record by (by apply record_ok_increment).
  rewrite record_of_increment by done. by rewrite lookup_insert_eq.
Qed.

Lemma record_ok_increments (n : nat) (file : File) (today email : pystr) :
  today ≠ prompts_used → record_ok (record_of file email) →
  record_ok (record_of (increments n file today email) email).
Proof.
  intros Hd Hok. induction n as [|n IH]; [done|].
  left. by apply record_ok_increment.
Qed.

Lemma get_usage_increments (n : nat) (file : File) (today email : pystr) :
  today ≠ prompts_used → record_ok (record_of file email) →
  (get_usage (increments n file today email) today email).1
  = ((get_usage file today email).1 + Z.of_nat n)%Z.
Proof.
  intros Hd Hok. induction n as [|n IH]; [simpl; lia|].
  change (increments (S n) file today email)
    with (increment_usage (increments n file today email) today email).
  rewrite get_usage_increment by (done || by apply record_ok_increments).
  rewrite IH. lia.
Qed.

Lemma get_usage_allowed (file : File) (today email : pystr) :
  (get_usage file today email).2
  = bool_decide ((get_usage file today email).1 < DAILY_LIMIT)%Z.
Proof. done. Qed.

Lemma load_increment_other (file : File) (today email other : pystr) :
  other ≠ email →
  _load (increment_usage file today email) !! other = _load file !! other.
Proof.
  intros Hne. assert (email ≠ other) as Hne' by congruence.
  unfold increment_usage, _save. simpl.
  rewrite lookup_insert_ne by done.
  destruct (bool_decide (is_Some (_load file !! email))); [done|].
  by rewrite lookup_insert_ne.
Qed.

(** Calls for one user leave the records of the others alone. *)
Lemma increments_other (n : nat) (file : File) (today email other d : pystr) :
  other ≠ email →
  get_usage (increments n file today email) d other = get_usage file d other.
Proof.
  intros Hne. induction n as [|n IH]; [done|].
  rewrite <- IH.
  change (increments (S n) file today email)
    with (increment_usage (increments n file today email) today email).
  unfold get_usage. by rewrite load_increment_other.
Qed.

(** What the calls of one day leave under another date. *)
Lemma increments_other_day (n : nat) (file : File) (today email d : pystr) :
  today ≠ prompts_used → d ≠ today → record_ok (record_of file email) →
  record_of file email !! d = None →
  record_of (increments n file today email) email !! d = None.
Proof.
  intros Hd Hne Hok Hnone. induction n as [|n IH]; [done|].
  change (increments (S n) file today email)
    with (increment_usage (increments n file today email) today email).
  rewrite record_of_increment by (done || by apply record_ok_increments).
  rewrite lookup_insert_ne by done.
  case_bool_decide; [done|]. apply IH.
Qed.

(** C9. After exactly ten [increment_usage] calls for a user on a day on
    which the user had used nothing, [get_usage] reports ten prompts used
    and no further prompt allowed; a different user without a record, and
    the same user under a date with nothing recorded, are reported a count
    of zero and allowed. The calls never change what another user is
    reported. *)
Theorem quota_after_ten_increments (file : File) (today email : pystr) :
  is_iso_date today = true →
  record_ok (record_of file email) →
  get_usage file today email = (0%Z, true) →
  let file' := increments 10 file today email in
  get_usage file' today email = (10%Z, false)
  ∧ (∀ other d, other ≠ email →
       get_usage file' d other = get_usage file d other
       ∧ (_load file !! other = None → get_usage file' d other = (0%Z, true)))
  ∧ (∀ d, is_iso_date d = true → d ≠ today →
       record_of file email !! d = None →
       get_usage file' d email = (0%Z, true)).
Proof.
  intros Hiso Hok H0 file'. subst file'.
  pose proof (iso_date_not_legacy_key _ Hiso) as Hd.
  split; [|split].
  - pose proof (get_usage_increments 10 file today email Hd Hok) as H.
    pose proof (get_usage_allowed (increments 10 file today email) today email) as Ha.
    rewrite H0 in H. change ((0%Z, true).1 + Z.of_nat 10)%Z with 10%Z in H.
    destruct (get_usage (increments 10 file today email) today email) as [c a].
    cbn [fst snd] in H, Ha. subst c a. reflexivity.
  - intros other d Hne. split; [by apply increments_other|].
    intros Hnone. rewrite increments_other by done.
    unfold get_usage. rewrite Hnone. reflexivity.
  - intros d Hdiso Hne Hnone.
    rewrite get_usage_record.
    + rewrite increments_other_day by done. reflexivity.
    + change (increments 10 file today email)
        with (increment_usage (increments 9 file today email) today email).
      apply record_ok_increment; [done|]. by apply record_ok_increments.
Qed.

Lemma quota_after_ten_increments_witness :
  get_usage (increments 10 None (str "2026-11-04") (str "ann@example.com"))
    (str "2026-11-04") (str "ann@example.com") = (10%Z, false).
Proof.
  exact (proj1 (quota_after_ten_increments None (str "2026-11-04")
                  (str "ann@example.com") eq_refl (or_introl eq_refl) eq_refl)).
Defined.

End quota.

(** ** The answer boundary of the chat interface *)

Section answer_boundary.
Import notion_loader rag app.

(** Whatever the chain does, the body of [get_answer] returns a string. *)
Lemma answer_with_returns (chain : option Chain) (question : pystr) :
  ∃ answer, answer_with chain question = Ret answer
    ∧ match chain with
      | None => answer = no_knowledge_base
      | Some invoke =>
        match invoke question with
        | inr content => answer = content
        | inl e => answer = str "Sorry, something went wrong: " ++ exn_str e
        end
      end.
Proof.
  destruct chain as [invoke|]; simpl; [|by eexists].
  destruct (invoke question) as [e|content]; simpl; by eexists.
Qed.

Lemma no_knowledge_base_distinct (e : exn) : no_knowledge_base ≠ went_wrong e.
Proof.
  intros H. apply (f_equal head) in H. vm_compute in H. discriminate.
Qed.

Lemma get_rag_without_index (env : Env) (svc : Services) (fs : FS) :
  fs !! DEFAULT_PERSIST_DIR = None → get_rag env svc fs = Ret None.
Proof.
  intros H. unfold get_rag. rewrite H.
  by rewrite bool_decide_eq_false_2 by (by intros [? ?]).
Qed.

Lemma get_rag_with_index (env : Env) (svc : Services) (fs : FS) :
  is_Some (fs !! DEFAULT_PERSIST_DIR) → env_set (OPENAI_API_KEY env) = true →
  ∃ chain, get_rag env svc fs = Ret (Some chain).
Proof.
  intros H Hkey. unfold get_rag. rewrite bool_decide_eq_true_2 by done. simpl.
  unfold load_vector_store, build_rag_chain, get_embeddings, get_llm.
  rewrite Hkey. simpl. by eexists.
Qed.

(** C7. At the chat boundary every exception of the chain is caught and
    turned into a returned string that ends with the error text, and a
    missing index is answered with the run-ingest-first message, which no
    error message equals. The command line reports the missing store with
    its own run-ingest message. *)
Theorem get_answer_never_raises
    (env : Env) (svc : Services) (fs : FS) (question : pystr) :
  (fs !! DEFAULT_PERSIST_DIR = None →
   get_answer env svc fs question = Ret no_knowledge_base)
  ∧ (∀ chain : option Chain, ∃ answer,
       answer_with chain question = Ret answer
       ∧ match chain with
         | None => answer = no_knowledge_base
         | Some invoke =>
           match invoke question with
           | inr content => answer = content
           | inl e => answer = str "Sorry, something went wrong: " ++ exn_str e
           end
         end)
  ∧ (is_Some (fs !! DEFAULT_PERSIST_DIR) → env_set (OPENAI_API_KEY env) = true →
     ∃ answer, get_answer env svc fs question = Ret answer)
  ∧ (∀ e, no_knowledge_base ≠ str "Sorry, something went wrong: " ++ exn_str e)
  ∧ (env_set (OPENAI_API_KEY env) = true → fs !! DEFAULT_PERSIST_DIR = None →
     ∀ debug, main.cmd_query env svc fs question None debug
     = Ret {| main.stdout := [str "Error: No vector store. Run 'ingest' first."];
              main.stderr := []; main.exit_code := Some 1 |}).
Proof.
  split; [|split; [|split; [|split]]].
  - intros H. unfold get_answer. by rewrite get_rag_without_index.
  - intros chain. apply answer_with_returns.
  - intros H Hkey. unfold get_answer.
    destruct (get_rag_with_index env svc fs H Hkey) as [chain ->]. simpl.
    destruct (answer_with_returns (Some chain) question) as [answer [Ha _]].
    by exists answer.
  - apply no_knowledge_base_distinct.
  - intros Hkey H debug. unfold main.cmd_query. rewrite Hkey. simpl.
    rewrite H. by rewrite bool_decide_eq_false_2 by (by intros [? ?]).
Qed.

End answer_boundary.

(** ** Retrieval *)

Section retrieval.
Import notion_loader rag.

Lemma similarity_search_length (svc : Services) (vs : Chroma) (q : pystr) (k : nat) :
  length (similarity_search svc vs q k) = k `min` length (collection vs).
Proof.
  unfold similarity_search. rewrite length_take.
  by rewrite (Permutation_length (merge_sort_Permutation _ _)).
Qed.

Lemma similarity_search_stored (svc : Services) (vs : Chroma) (q : pystr) (k : nat) :
  similarity_search svc vs q k ⊆ collection vs.
Proof.
  unfold similarity_search. intros d Hd.
  apply subseteq_take in Hd.
  by rewrite (merge_sort_Permutation _ _) in Hd.
Qed.

Lemma preview_length (content : pystr) : length (preview content) ≤ 203.
Proof.
  unfold preview. destruct (200 <? length content) eqn:E.
  - rewrite length_app, length_take. change (length (str "...")) with 3. lia.
  - apply Nat.ltb_ge in E. lia.
Qed.

(** C6. A retriever built with parameter [k] returns, for every query and
    every store, [min k n] of the [n] stored chunks: never more than [k],
    all of them when fewer than [k] are stored, and the empty list when the
    store is empty; it returns a list whatever the store holds. [query]
    retrieves with [k = 8], so its debug listing shows at most eight
    previews, each of at most 203 characters. *)
Theorem retrieval_at_most_k
    (svc : Services) (vs : Chroma) (question : pystr) (k : nat) :
  let docs := retriever_invoke svc (as_retriever vs k) question in
  length docs = k `min` length (collection vs)
  ∧ length docs ≤ k
  ∧ (length (collection vs) < k → length docs = length (collection vs))
  ∧ (collection vs = [] → docs = [])
  ∧ docs ⊆ collection vs
  ∧ (∀ env fs dir debug,
       let printed := (query env svc fs question dir debug).1 in
       length printed ≤ 10 ∧ Forall (fun line => length line ≤ 203) printed).
Proof.
  intros docs. subst docs. unfold retriever_invoke, as_retriever.
  cbn [vectorstore search_k].
  pose proof (similarity_search_length svc vs question k) as Hlen.
  split; [done|]. split; [lia|]. split; [lia|]. split.
  { intros H. rewrite H in Hlen. rewrite Nat.min_0_r in Hlen.
    by apply nil_length_inv. }
  split; [apply similarity_search_stored|].
  intros env fs dir debug. cbv zeta. unfold query.
  destruct (load_vector_store env fs dir) as [vs'| |]; cbn [fst];
    [|split; [cbn; lia|done]..].
  destruct debug; [|split; [cbn; lia|done]].
  split.
  - rewrite !length_app, length_map. unfold retriever_invoke, as_retriever.
    cbn [vectorstore search_k length]. rewrite similarity_search_length. lia.
  - apply Forall_app. split.
    { apply Forall_singleton. vm_compute. lia. }
    apply Forall_app. split.
    + apply Forall_forall. intros line [doc [-> _]]%list_elem_of_fmap.
      apply preview_length.
    + apply Forall_singleton. vm_compute. lia.
Qed.

End retrieval.

(** ** Building the index *)

Section build_index.
Import notion_loader text_splitter rag.

(** A vector store that stores whatever list of chunks it is given, behind
    services that are otherwise silent. *)
Definition silent_client : Client :=
  {| blocks_children_list := fun _ _ _ => inl (ServiceError (str "offline"));
     pages_retrieve := fun _ => inl (ServiceError (str "offline"));
     data_sources_query := fun _ _ _ => inl (ServiceError (str "offline"));
     search_data_sources := fun _ => inl (ServiceError (str "offline")) |}.

Definition accepting_store : Services :=
  {| notion := silent_client;
     NotionDBLoader_load := fun _ _ => inl (ServiceError (str "offline"));
     complete := fun _ => inl (ServiceError (str "offline"));
     similarity := fun _ _ => 0%Z;
     Chroma_from_documents := fun chunks => inr chunks |}.

Definition keys_set : Env :=
  {| NOTION_API_KEY := Some (str "secret"); OPENAI_API_KEY := Some (str "sk") |}.

Definition blank_document : Document :=
  {| page_content := []; source := str "p1"; doc_title := str "Empty" |}.

Definition stored_chunk : Document :=
  {| page_content := str "Coaching sessions are 45 minutes.";
     source := str "p0"; doc_title := str "Sessions" |}.

(** A list of one document without text has no chunks, passes the guard of
    [create_vector_store], and replaces a populated store by an empty one
    without any error. *)
Lemma create_vector_store_zero_chunks_no_error :
  split_documents DEFAULT_CHUNK_SIZE DEFAULT_CHUNK_OVERLAP [blank_document] = []
  ∧ create_vector_store keys_set accepting_store
      {[ DEFAULT_PERSIST_DIR := [stored_chunk] ]} [blank_document]
      DEFAULT_PERSIST_DIR DEFAULT_CHUNK_SIZE DEFAULT_CHUNK_OVERLAP
    = (Ret {| persist_directory := DEFAULT_PERSIST_DIR; collection := [] |},
       {[ DEFAULT_PERSIST_DIR := [] ]}).
Proof.
  split; [reflexivity|].
  unfold create_vector_store. simpl.
  rewrite lookup_singleton_eq.
  rewrite bool_decide_eq_true_2 by (by eexists).
  change (split_documents DEFAULT_CHUNK_SIZE DEFAULT_CHUNK_OVERLAP [blank_document])
    with (@nil Document).
  by rewrite delete_singleton_eq, insert_empty.
Qed.

(** C5, as the code has it. Building an index from zero documents is an
    error: [create_vector_store] raises [ValueError("No documents to
    process.")], a message that is not one of the no-index messages, and
    leaves the persisted stores as they were. A non-empty list of documents
    passes the guard: with the embedding key set, the store location is
    cleared and the chunks, however many, are handed to the vector store,
    whose answer decides the outcome. *)
Theorem create_vector_store_no_documents
    (env : Env) (svc : Services) (fs : FS) (dir : pystr) (size overlap : nat) :
  create_vector_store env svc fs [] dir size overlap
  = (Raise (ValueError (str "No documents to process.")), fs)
  ∧ str "No documents to process." ≠ app.no_knowledge_base
  ∧ str "No documents to process."
    ≠ str "Error: No vector store. Run 'ingest' first."
  ∧ (∀ doc docs, env_set (OPENAI_API_KEY env) = true →
       create_vector_store env svc fs (doc :: docs) dir size overlap
       = match Chroma_from_documents svc
                 (split_documents size overlap (doc :: docs)) with
         | inr index =>
           (Ret {| persist_directory := dir; collection := index |},
            <[dir := index]> (delete dir fs))
         | inl e => (Raise e, delete dir fs)
         end).
Proof.
  repeat split.
  - intros H. apply (f_equal head) in H. vm_compute in H. discriminate.
  - intros H. apply (f_equal head) in H. vm_compute in H. discriminate.
  - intros doc docs Hkey. unfold create_vector_store, get_embeddings.
    rewrite Hkey.
    assert ((if bool_decide (is_Some (fs !! dir)) then delete dir fs else fs)
            = delete dir fs) as ->.
    { case_bool_decide as H; [done|]. symmetry. apply delete_id.
      destruct (fs !! dir) eqn:E; [|done]. destruct H. by eexists. }
    done.
Qed.

End build_index.

(** ** Malformed page identifiers *)

Section malformed_ids.
Import notion_loader rag.

Lemma load_pages_for_skip (fuel : nat) (env : Env) (notion : Client)
    (pre post : list pystr) (bad : pystr) (seen : gset pystr) (docs : list Document) :
  length (normalize bad) ≠ 32 →
  load_pages_for fuel env notion (pre ++ bad :: post) seen docs
  = load_pages_for fuel env notion (pre ++ post) seen docs.
Proof.
  intros Hbad. revert seen docs.
  induction pre as [|p pre IH]; intros seen docs.
  - simpl. apply Nat.eqb_neq in Hbad. by rewrite Hbad.
  - simpl. destruct (negb (length (normalize p) =? 32)); [apply IH|].
    destruct (discover_data_source_from_page notion (hyphenate (normalize p)))
      as [ds_id|].
    + destruct (truthy ds_id).
      * destruct (bool_decide (ds_id ∈ seen)); [apply IH|].
        destruct (call (NotionDataSourceLoader.__init__ ds_id None (NOTION_API_KEY env)))
          as [loader| |]; simpl; [|done..].
        destruct (NotionDataSourceLoader.load fuel notion loader); simpl; [|done..].
        apply IH.
      * destruct (call (NotionPageLoader.__init__ [normalize p] None (NOTION_API_KEY env)))
          as [loader| |]; simpl; [|done..].
        destruct (NotionPageLoader.load fuel notion loader); simpl; [|done..].
        apply IH.
    + destruct (call (NotionPageLoader.__init__ [normalize p] None (NOTION_API_KEY env)))
        as [loader| |]; simpl; [|done..].
      destruct (NotionPageLoader.load fuel notion loader); simpl; [|done..].
      apply IH.
Qed.

(** C10. An entry of [page_ids] that is not 32 characters long once it is
    stripped and its hyphens are removed is skipped: on its own it yields no
    document and no error, and among other entries the result of
    [load_notion_documents] (documents or error) is the one obtained without
    it. *)
Theorem malformed_page_id_skipped
    (fuel : nat) (env : Env) (svc : Services) (pre post : list pystr)
    (bad : pystr) (database_id data_source_id : option pystr) :
  length (remove_hyphens (strip bad)) ≠ 32 →
  load_notion_documents fuel env svc (Some (pre ++ bad :: post))
    database_id data_source_id
  = load_notion_documents fuel env svc (Some (pre ++ post))
      database_id data_source_id
  ∧ load_notion_documents fuel env svc (Some [bad]) None None = Ret [].
Proof.
  intros Hbad. split.
  - unfold load_notion_documents.
    destruct (env_set data_source_id); [done|].
    set (docs := if env_set database_id then _ else _). clearbody docs.
    destruct (pre ++ bad :: post) as [|x l] eqn:E1;
      [by destruct pre|].
    rewrite <- E1. rewrite load_pages_for_skip by done.
    destruct (pre ++ post) as [|y l'] eqn:E2; done.
  - unfold load_notion_documents. simpl. fold (normalize bad).
    apply Nat.eqb_neq in Hbad. fold (normalize bad) in Hbad. by rewrite Hbad.
Qed.

Lemma malformed_page_id_skipped_witness :
  load_notion_documents 5 keys_set accepting_store
    (Some [str "not-a-page-id"]) None None = Ret [].
Proof.
  apply (malformed_page_id_skipped 5 keys_set accepting_store [] []
           (str "not-a-page-id") None None).
  vm_compute. lia.
Defined.

End malformed_ids.

(** ** The recursive block fetch *)

Section block_fetch.
Import notion_loader notion_spec.

Lemma descends_visible (b : Block) :
  descends b = true → (archived b || in_trash b) = false ∧ has_children b = true.
Proof.
  unfold descends, visible. intros [H1 H2]%andb_true_iff.
  split; [by apply negb_true_iff|done].
Qed.

Lemma parts_own_text (b : Block) (parts : list pystr) :
  (if truthy (strip (_extract_block_text b))
   then parts ++ [strip (_extract_block_text b)] else parts)
  = parts ++ own_text b.
Proof.
  unfold own_text. destruct (truthy _); [done|by rewrite app_nil_r].
Qed.

Lemma follows_last_page (notion : Client) (f : Forest) :
  follows_forest notion f → follows_children notion (LastPage f).
Proof.
  intros IH fuel block_id cursor parts Hs Hfuel.
  destruct fuel as [|fuel]; [cbn in Hfuel; lia|].
  cbn [serves] in Hs. cbn [blocks_recursive_while].
  destruct (blocks_children_list notion block_id 100 cursor) as [e|resp]; [done|].
  destruct Hs as (Hres & Hmore & Hf). cbn [call mbind outcome_bind].
  rewrite Hres, Hmore. cbn [calls] in Hfuel. rewrite IH by (done || lia).
  unfold forest_result, blocks_result. cbn [first_failure reading_order].
  by destruct (forest_failure f).
Qed.

Lemma follows_next_page (notion : Client) (f : Forest) (next : option pystr)
    (rest : Children) :
  follows_forest notion f → follows_children notion rest →
  follows_children notion (NextPage f next rest).
Proof.
  intros IHf IHrest fuel block_id cursor parts Hs Hfuel.
  destruct fuel as [|fuel]; [cbn in Hfuel; lia|].
  cbn [serves] in Hs. cbn [blocks_recursive_while].
  destruct (blocks_children_list notion block_id 100 cursor) as [e|resp]; [done|].
  destruct Hs as (Hres & Hmore & Hnext & Hf & Hrest).
  cbn [call mbind outcome_bind]. rewrite Hres, Hmore, Hnext.
  cbn [calls] in Hfuel. rewrite IHf by (done || lia).
  unfold forest_result, blocks_result. cbn [first_failure reading_order].
  destruct (forest_failure f); [done|]. cbn [mbind outcome_bind].
  rewrite IHrest by (done || lia). unfold blocks_result.
  destruct (first_failure rest); [done|]. by rewrite app_assoc.
Qed.

Lemma follows_failure (notion : Client) (e : exn) :
  follows_children notion (Failure e).
Proof.
  intros fuel block_id cursor parts Hs Hfuel.
  destruct fuel as [|fuel]; [cbn in Hfuel; lia|].
  cbn [serves] in Hs. cbn [blocks_recursive_while].
  destruct (blocks_children_list notion block_id 100 cursor) as [e'|resp]; [|done].
  by subst.
Qed.

Lemma follows_leaf (notion : Client) (b : Block) (rest : Forest) :
  follows_forest notion rest → follows_forest notion (FLeaf b rest).
Proof.
  intros IH fuel parts Hs Hfuel. cbn [serves_forest] in Hs.
  destruct Hs as (Hd & Hrest). cbn [roots blocks_recursive_for forest_calls] in *.
  unfold forest_result. cbn [forest_failure forest_reading_order].
  unfold descends in Hd. destruct (visible b) eqn:Hv.
  - unfold visible in Hv. apply negb_true_iff in Hv. rewrite Hv.
    cbn [andb] in Hd. rewrite Hd. rewrite parts_own_text.
    rewrite IH by done. unfold forest_result.
    destruct (forest_failure rest); [done|]. by rewrite app_assoc.
  - unfold visible in Hv. apply negb_false_iff in Hv. rewrite Hv.
    by rewrite IH.
Qed.

Lemma follows_node (notion : Client) (b : Block) (below : Children) (rest : Forest) :
  follows_children notion below → follows_forest notion rest →
  follows_forest notion (FNode b below rest).
Proof.
  intros IHbelow IHrest fuel parts Hs Hfuel. cbn [serves_forest] in Hs.
  destruct Hs as (Hd & Hbelow & Hrest).
  cbn [roots blocks_recursive_for forest_calls] in *.
  apply descends_visible in Hd as [Hv Hc]. rewrite Hv, Hc.
  rewrite parts_own_text. rewrite IHbelow by (done || lia).
  unfold blocks_result, forest_result.
  cbn [forest_failure forest_reading_order].
  destruct (first_failure below); [done|]. cbn [mbind outcome_bind].
  rewrite IHrest by (done || lia). unfold forest_result.
  destruct (forest_failure rest); [done|]. cbn [app]. by rewrite <- !app_assoc.
Qed.

(** The loops of [_fetch_blocks_recursive] follow the tree: with a budget
    of at least the number of listing calls, they return the reading order
    of the tree, or raise what its first failing call raises. *)
Lemma blocks_recursive_follows (notion : Client) (c : Children) :
  follows_children notion c.
Proof.
  induction c using Children_mut with (P0 := follows_forest notion).
  - by apply follows_last_page.
  - by apply follows_next_page.
  - apply follows_failure.
  - by intros fuel parts _ _; unfold forest_result; cbn; rewrite app_nil_r.
  - by apply follows_leaf.
  - by apply follows_node.
Qed.

End block_fetch.

(** ** More on stripping, splitting and joining *)

Section strip_more.

Lemma lstrip_drop (s : pystr) : ∃ k, lstrip s = drop k s.
Proof.
  induction s as [|c s [k IH]]; [by exists 0|]. simpl.
  destruct (is_space c); [by exists (S k)|by exists 0].
Qed.

Lemma lstrip_idem (s : pystr) : lstrip (lstrip s) = lstrip s.
Proof.
  induction s as [|c s IH]; [done|]. simpl.
  destruct (is_space c) eqn:E; [done|]. simpl. by rewrite E.
Qed.

Lemma rstrip_take (s : pystr) : ∃ n, rstrip s = take n s.
Proof.
  unfold rstrip. destruct (lstrip_drop (rev s)) as [k ->].
  exists (length s - k). rewrite skipn_rev, rev_involutive. done.
Qed.

Lemma rstrip_idem (s : pystr) : rstrip (rstrip s) = rstrip s.
Proof. unfold rstrip. by rewrite rev_involutive, lstrip_idem. Qed.

(** Stripping twice is stripping once. *)
Lemma strip_idem (s : pystr) : strip (strip s) = strip s.
Proof.
  unfold strip.
  assert (lstrip (rstrip (lstrip s)) = rstrip (lstrip s)) as ->.
  { destruct (rstrip_take (lstrip s)) as [n ->].
    apply lstrip_fixed_take, lstrip_idem. }
  apply rstrip_idem.
Qed.

Lemma lstrip_subseteq (s : pystr) : lstrip s ⊆ s.
Proof. destruct (lstrip_drop s) as [k ->]. apply subseteq_drop. Qed.

Lemma strip_subseteq (s : pystr) : strip s ⊆ s.
Proof.
  unfold strip. destruct (rstrip_take (lstrip s)) as [n ->].
  etrans; [apply subseteq_take|apply lstrip_subseteq].
Qed.

Lemma truthy_nonempty (s : pystr) : truthy s = true ↔ s ≠ [].
Proof. by destruct s. Qed.

Lemma split_from_no_sep (sep : N) (cur s : pystr) :
  sep ∉ cur → Forall (fun p => sep ∉ p) (split_from sep cur s).
Proof.
  revert cur. induction s as [|c s IH]; intros cur Hcur; simpl.
  - by apply Forall_singleton.
  - destruct (N.eqb_spec c sep) as [->|Hne].
    + constructor; [done|]. apply IH. apply not_elem_of_nil.
    + apply IH. rewrite elem_of_app, list_elem_of_singleton.
      intros [?|?]; [done|congruence].
Qed.

Lemma split_from_piece (sep : N) (cur p rest : pystr) :
  sep ∉ p → split_from sep cur (p ++ rest) = split_from sep (cur ++ p) rest.
Proof.
  revert cur. induction p as [|c p IH]; intros cur Hp; simpl.
  - by rewrite app_nil_r.
  - apply not_elem_of_cons in Hp as [Hc Hp].
    destruct (N.eqb_spec c sep) as [->|_]; [done|].
    rewrite IH by done. by rewrite <- app_assoc.
Qed.

Lemma split_from_join (sep : N) (cur p : pystr) (ps : list pystr) :
  Forall (fun q => sep ∉ q) (p :: ps) →
  split_from sep cur (join [sep] (p :: ps)) = (cur ++ p) :: ps.
Proof.
  revert cur p. induction ps as [|q ps IH]; intros cur p Hall.
  - cbn [join]. rewrite <- (app_nil_r p) at 1.
    rewrite split_from_piece by (by inversion Hall). done.
  - change (join [sep] (p :: q :: ps)) with (p ++ sep :: join [sep] (q :: ps)).
    inversion Hall as [|? ? Hp Hrest]; subst.
    rewrite split_from_piece by done. cbn [split_from].
    rewrite N.eqb_refl. by rewrite IH.
Qed.

(** Splitting what was joined with the separator gives the pieces back. *)
Lemma split_join (sep : N) (p : pystr) (ps : list pystr) :
  Forall (fun q => sep ∉ q) (p :: ps) →
  split sep (join [sep] (p :: ps)) = p :: ps.
Proof. intros H. unfold split. by rewrite split_from_join. Qed.

End strip_more.

(** ** The command line: page identifiers from text *)

Section page_id_lists.
Import notion_loader rag main main_spec.

(** Whatever the text, the identifiers read from a comma-separated list
    (the [--page-ids] argument or [NOTION_PAGE_IDS]) are non-empty, carry
    no surrounding white space and contain no comma. *)
Theorem parse_ids_clean (raw : pystr) : Forall clean_id (parse_ids raw).
Proof.
  unfold parse_ids. apply Forall_forall. intros p Hp.
  apply list_elem_of_fmap in Hp as [q [-> Hq]].
  apply list_elem_of_In, filter_In in Hq as [Hq Hnb].
  apply list_elem_of_In in Hq.
  split; [by apply truthy_nonempty|]. split; [apply strip_idem|].
  intros Hc. apply strip_subseteq in Hc.
  pose proof (split_from_no_sep comma [] raw (not_elem_of_nil _)) as Hall.
  rewrite Forall_forall in Hall. by apply (Hall q).
Qed.

(** Reading a list of identifiers back from its comma-joined text gives
    the list, for identifiers of the shape the parser itself returns. *)
Theorem parse_ids_join (ids : list pystr) :
  Forall clean_id ids → parse_ids (join [comma] ids) = ids.
Proof.
  intros Hall. destruct ids as [|p ps]; [done|].
  unfold parse_ids. rewrite split_join.
  - induction Hall as [|q qs (Hne & Hs & _) _ IH]; [done|].
    cbn [List.filter map]. rewrite Hs.
    apply truthy_nonempty in Hne. rewrite Hne. cbn [map]. by rewrite Hs, IH.
  - eapply Forall_impl; [done|]. by intros q (_ & _ & ?).
Qed.

Lemma parse_ids_join_witness :
  parse_ids (join [comma] [str "5bcc97fa499e4e61988532bb5e72edda"; str "abc"])
  = [str "5bcc97fa499e4e61988532bb5e72edda"; str "abc"].
Proof.
  apply parse_ids_join.
  repeat constructor; try done; apply (bool_decide_unpack _); by vm_compute.
Defined.

End page_id_lists.

(** ** The command line: exit status *)

Section commands.
Import notion_loader rag main main_spec.



(** The checks of [cmd_ingest] come before any work: without a source, or
    without one of the two keys, it exits with status 1 and the line that
    names what is missing, and leaves the file system as it was, whatever
    the services would answer. *)
Theorem cmd_ingest_checks_first (fuel : nat) (environ : Environ) (svc : Services)
    (fs : FS) (args : IngestArgs) :
  (no_source environ args →
   cmd_ingest fuel environ svc fs args
   = (Ret (failed_run
             [str "Error: Provide --page-ids, --database-id, or --data-source-id"] []),
      fs))
  ∧ (¬ no_source environ args → env_set (NOTION_API_KEY (keys environ)) = false →
     cmd_ingest fuel environ svc fs args
     = (Ret (failed_run [str "Error: NOTION_API_KEY required"] []), fs))
  ∧ (¬ no_source environ args → env_set (NOTION_API_KEY (keys environ)) = true →
     env_set (OPENAI_API_KEY (keys environ)) = false →
     cmd_ingest fuel environ svc fs args
     = (Ret (failed_run [str "Error: OPENAI_API_KEY required"] []), fs)).
Proof.
  unfold no_source, chosen_page_ids, cmd_ingest.
  set (page_ids := if env_set (arg_page_ids args) then _ else _).
  set (db := or_opt (arg_database_id args) _).
  set (ds := or_opt (arg_data_source_id args) _).
  assert ((match page_ids with [] => true | _ => false end
           && negb (env_set db) && negb (env_set ds)) = true
          ↔ page_ids = [] ∧ env_set db = false ∧ env_set ds = false) as Hiff.
  { rewrite !andb_true_iff, !negb_true_iff. destruct page_ids; intuition congruence. }
  split; [|split].
  - intros H. apply Hiff in H. by rewrite H.
  - intros H Hk. destruct (_ && _ && _); [by destruct H; apply Hiff|].
    by rewrite Hk.
  - intros H Hk Ho. destruct (_ && _ && _); [by destruct H; apply Hiff|].
    by rewrite Hk, Ho.
Qed.

Lemma cmd_ingest_checks_first_witness :
  cmd_ingest 3 {| keys := keys_set; NOTION_PAGE_IDS := Some (str " , ");
                  NOTION_DATABASE_ID := None; NOTION_DATA_SOURCE_ID := Some [] |}
    accepting_store ∅
    {| arg_page_ids := None; arg_database_id := None;
       arg_data_source_id := None; arg_output := None |}
  = (Ret (failed_run
            [str "Error: Provide --page-ids, --database-id, or --data-source-id"] []),
     ∅).
Proof.
  apply (cmd_ingest_checks_first 3 _ accepting_store ∅).
  repeat split.
Defined.



(** Arguments given on the command line win over the environment:
    [cmd_ingest] looks at [NOTION_PAGE_IDS], [NOTION_DATABASE_ID] and
    [NOTION_DATA_SOURCE_ID] only where the matching argument is missing or
    empty. *)
Theorem cmd_ingest_args_override_env (fuel : nat) (environ environ' : Environ)
    (svc : Services) (fs : FS) (args : IngestArgs) :
  keys environ = keys environ' →
  (env_set (arg_page_ids args) = true
   ∨ NOTION_PAGE_IDS environ = NOTION_PAGE_IDS environ') →
  (env_set (arg_database_id args) = true
   ∨ NOTION_DATABASE_ID environ = NOTION_DATABASE_ID environ') →
  (env_set (arg_data_source_id args) = true
   ∨ NOTION_DATA_SOURCE_ID environ = NOTION_DATA_SOURCE_ID environ') →
  cmd_ingest fuel environ svc fs args = cmd_ingest fuel environ' svc fs args.
Proof.
  intros Hk Hp Hd Hs. unfold cmd_ingest, or_opt, _get_page_ids. rewrite Hk.
  assert ((if env_set (arg_page_ids args)
           then parse_ids (default [] (arg_page_ids args))
           else parse_ids (default [] (NOTION_PAGE_IDS environ)))
          = (if env_set (arg_page_ids args)
             then parse_ids (default [] (arg_page_ids args))
             else parse_ids (default [] (NOTION_PAGE_IDS environ')))) as ->.
  { destruct Hp as [->| ->]; done. }
  assert ((if env_set (arg_database_id args) then arg_database_id args
           else NOTION_DATABASE_ID environ)
          = (if env_set (arg_database_id args) then arg_database_id args
             else NOTION_DATABASE_ID environ')) as ->.
  { destruct Hd as [->| ->]; done. }
  assert ((if env_set (arg_data_source_id args) then arg_data_source_id args
           else NOTION_DATA_SOURCE_ID environ)
          = (if env_set (arg_data_source_id args) then arg_data_source_id args
             else NOTION_DATA_SOURCE_ID environ')) as ->.
  { destruct Hs as [->| ->]; done. }
  done.
Qed.

Lemma cmd_ingest_args_override_env_witness :
  cmd_ingest 3 {| keys := keys_set; NOTION_PAGE_IDS := Some (str "abc");
                  NOTION_DATABASE_ID := None; NOTION_DATA_SOURCE_ID := None |}
    accepting_store ∅
    {| arg_page_ids := Some (str "p"); arg_database_id := Some (str "d");
       arg_data_source_id := None; arg_output := None |}
  = cmd_ingest 3 {| keys := keys_set; NOTION_PAGE_IDS := None;
                    NOTION_DATABASE_ID := Some (str "x");
                    NOTION_DATA_SOURCE_ID := None |}
      accepting_store ∅
      {| arg_page_ids := Some (str "p"); arg_database_id := Some (str "d");
         arg_data_source_id := None; arg_output := None |}.
Proof.
  apply cmd_ingest_args_override_env;
    [reflexivity | left; reflexivity | left; reflexivity | right; reflexivity].
Defined.

End commands.

(** ** The quota at the chat boundary *)

Section send_prompt.
Import notion_loader rag app app_spec usage_store usage_spec.


Lemma get_usage_nonneg_limit (file : File) (today email : pystr) :
  (get_usage file today email).2 = true
  ↔ ((get_usage file today email).1 < DAILY_LIMIT)%Z.
Proof. rewrite get_usage_allowed. apply bool_decide_eq_true. Qed.

(** [_try_send_prompt] and the counter. At the limit a prompt is refused
    with the daily-limit message, the chain is not consulted and the file
    is left alone; below the limit a returned answer costs exactly one
    prompt, and an exception that escapes [get_answer] costs none. The
    prompt is refused exactly when [main] would show no prompt remaining. *)
Theorem try_send_prompt_quota (env : Env) (svc : Services) (fs : FS)
    (file : File) (today email prompt : pystr) :
  is_iso_date today = true → record_ok (record_of file email) →
  let used := (get_usage file today email).1 in
  let result := _try_send_prompt env svc fs file today email prompt in
  ((DAILY_LIMIT ≤ used)%Z → result = (Ret (false, DAILY_LIMIT_MSG), file))
  ∧ ((used < DAILY_LIMIT)%Z → ∀ answer,
       get_answer env svc fs prompt = Ret answer →
       result = (Ret (true, answer), increment_usage file today email)
       ∧ (get_usage result.2 today email).1 = (used + 1)%Z)
  ∧ ((used < DAILY_LIMIT)%Z → ∀ e,
       get_answer env svc fs prompt = Raise e → result = (Raise e, file))
  ∧ ((DAILY_LIMIT ≤ used)%Z ↔ remaining used = 0%Z).
Proof.
  intros Hiso Hok used result. subst used result.
  pose proof (iso_date_not_legacy_key _ Hiso) as Hd.
  pose proof (get_usage_allowed file today email) as Ha.
  pose proof (get_usage_increment file today email Hd Hok) as Hinc.
  unfold _try_send_prompt.
  destruct (get_usage file today email) as [used can_send].
  cbn [fst snd] in *. subst can_send.
  split; [|split; [|split]].
  - intros H. by rewrite bool_decide_eq_false_2 by lia.
  - intros H answer Hans. rewrite bool_decide_eq_true_2 by lia. cbn [negb].
    rewrite Hans. done.
  - intros H e He. rewrite bool_decide_eq_true_2 by lia. cbn [negb].
    by rewrite He.
  - unfold remaining. lia.
Qed.

Lemma try_send_prompt_quota_witness :
  _try_send_prompt keys_set accepting_store ∅ None (str "2026-11-04")
    (str "ann@example.com") (str "hello")
  = (Ret (true, no_knowledge_base),
     increment_usage None (str "2026-11-04") (str "ann@example.com")).
Proof.
  apply (try_send_prompt_quota keys_set accepting_store ∅ None (str "2026-11-04")
           (str "ann@example.com") (str "hello") eq_refl (or_introl eq_refl)).
  - reflexivity.
  - reflexivity.
Defined.

(** A failed generation still uses up a prompt: when the chat model raises
    on every prompt, a user below the limit is returned the apology with
    the error text, flagged as a success, and the counter grows by one. *)
Theorem failed_generation_counts (env : Env) (svc : Services) (fs : FS)
    (file : File) (today email prompt : pystr) (e : exn) :
  is_Some (fs !! DEFAULT_PERSIST_DIR) → env_set (OPENAI_API_KEY env) = true →
  (∀ p, complete svc p = inl e) →
  (get_usage file today email).2 = true →
  _try_send_prompt env svc fs file today email prompt
  = (Ret (true, str "Sorry, something went wrong: " ++ exn_str e),
     increment_usage file today email).
Proof.
  intros Hfs Hkey Hfail Hcan. unfold _try_send_prompt.
  destruct (get_usage file today email) as [used can_send]. cbn [snd] in Hcan.
  subst can_send. cbn [negb].
  unfold get_answer, get_rag. rewrite bool_decide_eq_true_2 by done. cbn [negb].
  unfold load_vector_store, build_rag_chain, get_embeddings, get_llm.
  rewrite Hkey. simpl. by rewrite Hfail.
Qed.

Lemma failed_generation_counts_witness :
  _try_send_prompt keys_set accepting_store {[ DEFAULT_PERSIST_DIR := [stored_chunk] ]}
    None (str "2026-11-04") (str "ann@example.com") (str "hello")
  = (Ret (true, str "Sorry, something went wrong: offline"),
     increment_usage None (str "2026-11-04") (str "ann@example.com")).
Proof.
  apply (failed_generation_counts keys_set accepting_store
           {[ DEFAULT_PERSIST_DIR := [stored_chunk] ]} None (str "2026-11-04")
           (str "ann@example.com") (str "hello") (ServiceError (str "offline"))).
  - rewrite lookup_singleton_eq. by eexists.
  - reflexivity.
  - reflexivity.
  - reflexivity.
Defined.




(** What the chat boundary does not catch: with an index in place and no
    [OPENAI_API_KEY], building the chain raises before the [try] of
    [get_answer] is entered, so the [ValueError] reaches the caller of
    [get_answer] and of [_try_send_prompt], and the prompt is not counted. *)
Theorem missing_key_escapes_get_answer (env : Env) (svc : Services) (fs : FS)
    (file : File) (today email prompt : pystr) :
  is_Some (fs !! DEFAULT_PERSIST_DIR) → env_set (OPENAI_API_KEY env) = false →
  get_answer env svc fs prompt = Raise (ValueError (str "OPENAI_API_KEY required."))
  ∧ ((get_usage file today email).2 = true →
     _try_send_prompt env svc fs file today email prompt
     = (Raise (ValueError (str "OPENAI_API_KEY required.")), file)).
Proof.
  intros Hfs Hkey.
  assert (get_answer env svc fs prompt
          = Raise (ValueError (str "OPENAI_API_KEY required."))) as Hraise.
  { unfold get_answer, get_rag. rewrite bool_decide_eq_true_2 by done. cbn [negb].
    unfold load_vector_store, get_embeddings. by rewrite Hkey. }
  split; [done|]. intros Hcan. unfold _try_send_prompt.
  destruct (get_usage file today email) as [used can_send]. cbn [snd] in Hcan.
  subst can_send. cbn [negb]. by rewrite Hraise.
Qed.

Lemma missing_key_escapes_get_answer_witness :
  get_answer {| NOTION_API_KEY := None; OPENAI_API_KEY := None |} accepting_store
    {[ DEFAULT_PERSIST_DIR := [stored_chunk] ]} (str "hello")
  = Raise (ValueError (str "OPENAI_API_KEY required.")).
Proof.
  apply (missing_key_escapes_get_answer
           {| NOTION_API_KEY := None; OPENAI_API_KEY := None |} accepting_store
           {[ DEFAULT_PERSIST_DIR := [stored_chunk] ]} None (str "2026-11-04")
           (str "ann@example.com") (str "hello")).
  - rewrite lookup_singleton_eq. by eexists.
  - reflexivity.
Defined.

End send_prompt.

(** ** Records of the old format *)

Section old_format.
Import usage_store usage_spec.

Lemma record_of_increment_raw (file : File) (today email : pystr) :
  record_of (increment_usage file today email) email
  = let user := record_of file email in
    let user :=
      if bool_decide (is_Some (user !! prompts_used))
         && negb (bool_decide (is_Some (user !! today)))
      then {[ today := default 0%Z (user !! prompts_used) ]}
      else user in
    <[today := (default 0 (user !! today) + 1)%Z]> user.
Proof.
  unfold record_of, increment_usage, _save. simpl.
  set (data := _load file).
  rewrite lookup_insert_eq. simpl.
  assert (default ∅ ((if bool_decide (is_Some (data !! email)) then data
                      else <[email:=∅]> data) !! email)
          = default ∅ (data !! email)) as ->; [|done].
  case_bool_decide as Hin; [done|]. rewrite lookup_insert_eq. simpl.
  destruct (data !! email) eqn:E; [|done]. destruct Hin. by eexists.
Qed.

(** A record of the old format, [{"prompts_used": n}], is read as [n]
    prompts used on whatever day the question is asked, and the first
    [increment_usage] replaces it by a record of the current format with
    [n + 1] for that day. *)
Theorem old_format_migration (file : File) (today email : pystr) (n : Z) :
  is_iso_date today = true →
  record_of file email = {[ prompts_used := n ]} →
  (∀ d, get_usage file d email = (n, bool_decide (n < DAILY_LIMIT)%Z))
  ∧ record_of (increment_usage file today email) email = {[ today := (n + 1)%Z ]}.
Proof.
  intros Hiso Hrec. pose proof (iso_date_not_legacy_key _ Hiso) as Hd. split.
  - intros d. unfold get_usage. fold (record_of file email). rewrite Hrec.
    rewrite lookup_singleton_eq. rewrite bool_decide_eq_true_2 by (by eexists).
    cbn [default]. by rewrite lookup_singleton_eq.
  - rewrite record_of_increment_raw. cbv zeta. rewrite Hrec.
    rewrite lookup_singleton_eq, lookup_singleton_ne by done.
    rewrite bool_decide_eq_true_2 by (by eexists).
    rewrite bool_decide_eq_false_2 by (by intros [? ?]). cbn [negb andb default].
    rewrite lookup_singleton_eq. cbn [default].
    apply insert_singleton_eq.
Qed.

Lemma old_format_migration_witness :
  record_of
    (increment_usage (Some {[ str "ann@example.com" := {[ prompts_used := 4%Z ]} ]})
       (str "2026-11-04") (str "ann@example.com"))
    (str "ann@example.com")
  = {[ str "2026-11-04" := 5%Z ]}.
Proof.
  apply (old_format_migration
           (Some {[ str "ann@example.com" := {[ prompts_used := 4%Z ]} ]})
           (str "2026-11-04") (str "ann@example.com") 4).
  - reflexivity.
  - reflexivity.
Defined.

(** A record that holds the old key beside the counter of the day is read
    through the old key alone: [increment_usage] adds to the counter of the
    day, and [get_usage] goes on reporting the old count, unchanged. *)
Theorem old_key_shadows_counter (file : File) (today email : pystr) (n c : Z) :
  is_iso_date today = true →
  record_of file email !! prompts_used = Some n →
  record_of file email !! today = Some c →
  record_of (increment_usage file today email) email !! today = Some (c + 1)%Z
  ∧ get_usage (increment_usage file today email) today email
    = get_usage file today email
  ∧ get_usage file today email = (n, bool_decide (n < DAILY_LIMIT)%Z).
Proof.
  intros Hiso Hold Hday. pose proof (iso_date_not_legacy_key _ Hiso) as Hd.
  assert (record_of (increment_usage file today email) email
          = <[today := (c + 1)%Z]> (record_of file email)) as Hrec.
  { rewrite record_of_increment_raw. cbv zeta. rewrite Hold, Hday.
    rewrite !bool_decide_eq_true_2 by (by eexists). cbn [negb andb].
    by rewrite Hday. }
  assert (get_usage file today email = (n, bool_decide (n < DAILY_LIMIT)%Z)) as Hget.
  { unfold get_usage. fold (record_of file email). rewrite Hold.
    rewrite bool_decide_eq_true_2 by (by eexists). cbn [default].
    by rewrite lookup_singleton_eq. }
  split; [|split; [|done]].
  - rewrite Hrec. apply lookup_insert_eq.
  - rewrite Hget. unfold get_usage.
    fold (record_of (increment_usage file today email) email). rewrite Hrec.
    rewrite lookup_insert_ne by done. rewrite Hold.
    rewrite bool_decide_eq_true_2 by (by eexists). cbn [default].
    by rewrite lookup_singleton_eq.
Qed.

Lemma old_key_shadows_counter_witness :
  get_usage
    (increment_usage
       (Some {[ str "ann@example.com" :=
                  <[ str "2026-11-04" := 9%Z ]> {[ prompts_used := 0%Z ]} ]})
       (str "2026-11-04") (str "ann@example.com"))
    (str "2026-11-04") (str "ann@example.com")
  = (0%Z, true).
Proof.
  pose proof (old_key_shadows_counter
           (Some {[ str "ann@example.com" :=
                      <[ str "2026-11-04" := 9%Z ]> {[ prompts_used := 0%Z ]} ]})
           (str "2026-11-04") (str "ann@example.com") 0 9) as H.
  destruct H as (_ & H1 & H2).
  - reflexivity.
  - reflexivity.
  - reflexivity.
  - by rewrite H1, H2.
Defined.

End old_format.

(** ** Loading from several sources *)

Section sources.
Import notion_loader rag rag_spec.

Lemma bind_ret_app (m : outcome (list Document)) (a b : list Document) :
  (d ← (d' ← m; Ret (b ++ d')); Ret (a ++ d)) = (d ← m; Ret ((a ++ b) ++ d)).
Proof. destruct m; simpl; [by rewrite app_assoc|done..]. Qed.

(** The documents gathered before the loop over [page_ids] stay in front
    of what the loop adds. *)
Lemma load_pages_for_acc (fuel : nat) (env : Env) (notion : Client)
    (page_ids : list pystr) (seen : gset pystr) (docs : list Document) :
  load_pages_for fuel env notion page_ids seen docs
  = (d ← load_pages_for fuel env notion page_ids seen []; Ret (docs ++ d)).
Proof.
  revert seen docs. induction page_ids as [|p rest IH]; intros seen docs.
  - simpl. by rewrite app_nil_r.
  - simpl. destruct (negb (length (normalize p) =? 32)); [apply IH|].
    destruct (discover_data_source_from_page notion (hyphenate (normalize p)))
      as [ds_id|].
    + destruct (truthy ds_id).
      * destruct (bool_decide (ds_id ∈ seen)); [apply IH|].
        destruct (call (NotionDataSourceLoader.__init__ ds_id None (NOTION_API_KEY env)))
          as [loader| |]; simpl; [|done..].
        destruct (NotionDataSourceLoader.load fuel notion loader) as [loaded| |];
          simpl; [|done..].
        rewrite (IH _ (docs ++ loaded)), (IH _ loaded). apply eq_sym, bind_ret_app.
      * destruct (call (NotionPageLoader.__init__ [normalize p] None (NOTION_API_KEY env)))
          as [loader| |]; simpl; [|done..].
        destruct (NotionPageLoader.load fuel notion loader) as [loaded| |];
          simpl; [|done..].
        rewrite (IH _ (docs ++ loaded)), (IH _ loaded). apply eq_sym, bind_ret_app.
    + destruct (call (NotionPageLoader.__init__ [normalize p] None (NOTION_API_KEY env)))
        as [loader| |]; simpl; [|done..].
      destruct (NotionPageLoader.load fuel notion loader) as [loaded| |];
        simpl; [|done..].
      rewrite (IH _ (docs ++ loaded)), (IH _ loaded). apply eq_sym, bind_ret_app.
Qed.

(** How [load_notion_documents] combines its sources. A data source, when
    named, is the only source read: page identifiers and database are
    ignored. Otherwise the documents of the database come first and those
    reached through the page identifiers follow; a database loader that
    raises contributes nothing and stops nothing. *)
Theorem load_notion_documents_sources (fuel : nat) (env : Env) (svc : Services)
    (page_ids : option (list pystr)) (database_id data_source_id : option pystr) :
  (env_set data_source_id = true →
   load_notion_documents fuel env svc page_ids database_id data_source_id
   = load_notion_documents fuel env svc None None data_source_id)
  ∧ (env_set data_source_id = false →
     load_notion_documents fuel env svc page_ids database_id data_source_id
     = (pages ← load_notion_documents fuel env svc page_ids None None;
        Ret (database_docs env svc database_id ++ pages))).
Proof.
  unfold load_notion_documents. split; intros Hds; rewrite Hds; [done|].
  cbn [env_set app]. unfold database_docs.
  set (db := if env_set database_id then _ else _).
  assert (db = (if env_set database_id
                then match NotionDBLoader_load svc (NOTION_API_KEY env)
                             (remove_hyphens (strip (default [] database_id))) with
                     | inr loaded => loaded
                     | inl _ => []
                     end
                else [])) as ->.
  { unfold db. destruct (env_set database_id); [|done].
    by destruct (NotionDBLoader_load _ _ _). }
  destruct page_ids as [[|p rest]|]; simpl; [by rewrite app_nil_r| |by rewrite app_nil_r].
  apply (load_pages_for_acc fuel env (notion svc) (p :: rest)).
Qed.

Lemma load_notion_documents_sources_witness :
  load_notion_documents 3 keys_set accepting_store (Some [str "abc"])
    (Some (str "db")) None
  = (pages ← load_notion_documents 3 keys_set accepting_store (Some [str "abc"])
               None None;
     Ret (database_docs keys_set accepting_store (Some (str "db")) ++ pages)).
Proof.
  apply (load_notion_documents_sources 3 keys_set accepting_store
           (Some [str "abc"]) (Some (str "db")) None).
  reflexivity.
Defined.

Lemma load_pages_for_seen (fuel : nat) (env : Env) (notion : Client)
    (page_ids : list pystr) (seen : gset pystr) (docs : list Document) (ds : pystr) :
  discover_data_source_from_page notion [] = Some ds → truthy ds = true →
  ds ∈ seen →
  load_pages_for fuel env notion page_ids seen docs = Ret docs.
Proof.
  intros Hdisc Ht Hin. induction page_ids as [|p rest IH]; [done|].
  simpl. destruct (negb (length (normalize p) =? 32)); [done|].
  change (discover_data_source_from_page notion (hyphenate (normalize p)))
    with (discover_data_source_from_page notion []).
  rewrite Hdisc, Ht. by rewrite bool_decide_eq_true_2.
Qed.

(** When the search of the workspace finds a usable data source, ingesting
    by page identifiers is ingesting that data source, once: with at least
    one well-formed identifier in the list, the result is the one of naming
    the data source directly, and no page is loaded on its own. *)
Theorem page_ids_load_the_data_source (fuel : nat) (env : Env) (svc : Services)
    (page_ids : list pystr) (database_id : option pystr) (ds : pystr) :
  discover_data_source_from_page (notion svc) [] = Some ds →
  truthy ds = true →
  Exists (fun p => valid_page_id p = true) page_ids →
  load_notion_documents fuel env svc (Some page_ids) None None
  = load_notion_documents fuel env svc None None (Some ds).
Proof.
  intros Hdisc Ht Hex. unfold load_notion_documents.
  cbn [env_set]. rewrite Ht. change (default [] (Some ds)) with ds. cbn [app].
  destruct page_ids as [|p0 rest0]; [by inversion Hex|].
  generalize dependent (p0 :: rest0). clear p0 rest0. intros ids Hex.
  induction Hex as [p rest Hp|p rest Hex IH].
  - unfold valid_page_id in Hp. cbn [load_pages_for]. rewrite Hp. cbn [negb].
    change (discover_data_source_from_page (notion svc) (hyphenate (normalize p)))
      with (discover_data_source_from_page (notion svc) []).
    rewrite Hdisc, Ht. rewrite bool_decide_eq_false_2 by apply not_elem_of_empty.
    destruct (call (NotionDataSourceLoader.__init__ ds None (NOTION_API_KEY env)))
      as [loader| |]; simpl; [|done..].
    destruct (NotionDataSourceLoader.load fuel (notion svc) loader) as [loaded| |];
      simpl; [|done..].
    apply (load_pages_for_seen fuel env (notion svc) rest _ _ ds); [done..|].
    set_solver.
  - cbn [load_pages_for].
    destruct (negb (length (normalize p) =? 32)) eqn:Hv; [apply IH|].
    change (discover_data_source_from_page (notion svc) (hyphenate (normalize p)))
      with (discover_data_source_from_page (notion svc) []).
    rewrite Hdisc, Ht. rewrite bool_decide_eq_false_2 by apply not_elem_of_empty.
    destruct (call (NotionDataSourceLoader.__init__ ds None (NOTION_API_KEY env)))
      as [loader| |]; simpl; [|done..].
    destruct (NotionDataSourceLoader.load fuel (notion svc) loader) as [loaded| |];
      simpl; [|done..].
    apply (load_pages_for_seen fuel env (notion svc) rest _ _ ds); [done..|].
    set_solver.
Qed.

End sources.

(** ** Ingest and the persisted store *)

Section ingest_store.
Import notion_loader rag rag_spec.


(** What stops [ingest] before the vector store is touched leaves every
    persisted store as it was: an error while loading, nothing loaded
    ([No documents to process.]), or a missing embedding key. *)
Theorem ingest_early_failure_keeps_store (fuel : nat) (env : Env) (svc : Services)
    (fs : FS) (page_ids : option (list pystr)) (db ds : option pystr) (dir : pystr) :
  let loaded := load_notion_documents fuel env svc page_ids db ds in
  let result := ingest fuel env svc fs page_ids db ds dir in
  (∀ e, loaded = Raise e → result = (Raise e, fs))
  ∧ (loaded = Ret [] →
     result = (Raise (ValueError (str "No documents to process.")), fs))
  ∧ (∀ docs, loaded = Ret docs → docs ≠ [] →
       env_set (OPENAI_API_KEY env) = false →
       result = (Raise (ValueError (str "OPENAI_API_KEY required.")), fs)).
Proof.
  cbv zeta. unfold ingest. split; [|split].
  - by intros e ->.
  - by intros ->.
  - intros docs -> Hne Hkey. destruct docs as [|doc docs]; [done|].
    unfold create_vector_store, get_embeddings. by rewrite Hkey.
Qed.


End ingest_store.

(** ** Titles *)

Section titles.
Import notion_loader rag loader_spec explore_notes.

(** The title of a page is read from its first property of type [title],
    whatever stands before or after it: the text of its spans, or
    [Untitled] when it has no span. A page without such a property is
    [Untitled]. *)
Theorem page_title_first_title_property (props : list (pystr * Property)) :
  (Forall (fun entry => is_title entry = false) props →
   _get_page_title_from_props props = str "Untitled")
  ∧ (∀ pre name prop post,
       props = pre ++ (name, prop) :: post →
       Forall (fun entry => is_title entry = false) pre →
       is_title (name, prop) = true →
       _get_page_title_from_props props
       = match prop_title prop with
         | [] => str "Untitled"
         | arr => _extract_rich_text arr
         end).
Proof.
  split.
  - induction 1 as [|[name prop] rest Hx _ IH]; [done|].
    unfold is_title in Hx. cbn [snd] in Hx. cbn [_get_page_title_from_props].
    by rewrite Hx.
  - intros pre name prop post -> Hpre Ht.
    induction Hpre as [|[name' prop'] rest Hx _ IH].
    + unfold is_title in Ht. cbn [snd] in Ht. cbn [app _get_page_title_from_props].
      by rewrite Ht.
    + unfold is_title in Hx. cbn [snd] in Hx.
      cbn [app _get_page_title_from_props]. by rewrite Hx.
Qed.

Lemma page_title_first_title_property_witness :
  _get_page_title_from_props (properties sample.row1) = str "Pricing".
Proof.
  apply (proj2 (page_title_first_title_property (properties sample.row1))
           [(str "Tags", {| prop_type := str "multi_select"; prop_title := [] |})]
           (str "Name")
           {| prop_type := str "title"; prop_title := [sample.span "Pricing"] |} []).
  - reflexivity.
  - repeat constructor.
  - reflexivity.
Defined.

Lemma first_title_loader (props : list (pystr * Property)) :
  first_title props
  = if forallb (fun entry => negb (is_title entry)) props then None
    else Some (let t := _get_page_title_from_props props in
               if truthy t then t else str "Untitled").
Proof.
  induction props as [|[name prop] rest IH]; [done|].
  cbn [first_title forallb _get_page_title_from_props]. unfold is_title at 1.
  cbn [snd]. destruct (eqb (prop_type prop) (str "title")); cbn [negb andb].
  - destruct (prop_title prop) as [|x arr] eqn:E; [done|].
    by destruct (truthy (_extract_rich_text (x :: arr))).
  - apply IH.
Qed.

(** [_get_titles_only] never lists an empty title. It lists one title per
    row that has a property of type [title] and none for the other rows;
    the title is the one the loaders give the row, except that a title
    whose spans are all empty is listed as [Untitled]. *)
Theorem titles_only_never_empty (notion : Client) (DS_ID : pystr) (limit : nat)
    (titles : list pystr) :
  _get_titles_only notion DS_ID limit = inr titles →
  Forall (fun t => t ≠ []) titles
  ∧ ∃ resp,
      data_sources_query notion
        (if length DS_ID =? 32 then hyphenate DS_ID else DS_ID) limit None
      = inr resp
      ∧ titles
        = map (fun row => let t := _get_page_title_from_props (properties row) in
                          if truthy t then t else str "Untitled")
            (List.filter (fun row => existsb is_title (properties row))
                         (results resp)).
Proof.
  unfold _get_titles_only.
  destruct (data_sources_query notion _ limit None) as [e|resp]; [done|].
  intros [= <-].
  assert (omap (fun p => first_title (properties p)) (results resp)
          = map (fun row => let t := _get_page_title_from_props (properties row) in
                            if truthy t then t else str "Untitled")
              (List.filter (fun row => existsb is_title (properties row))
                           (results resp))) as Heq.
  { induction (results resp) as [|row rows IH]; [done|].
    cbn [omap list_omap List.filter]. rewrite first_title_loader.
    assert (forallb (fun entry => negb (is_title entry)) (properties row)
            = negb (existsb is_title (properties row))) as ->.
    { induction (properties row) as [|x xs IHx]; [done|].
      cbn [forallb existsb]. rewrite IHx. by destruct (is_title x). }
    destruct (existsb is_title (properties row)); cbn [negb map]; by rewrite IH. }
  split; [|by exists resp].
  rewrite Heq. apply Forall_forall. intros t [row [-> _]]%list_elem_of_fmap.
  cbv zeta. destruct (truthy (_get_page_title_from_props (properties row))) eqn:E.
  - by apply truthy_nonempty.
  - done.
Qed.

Lemma titles_only_never_empty_witness :
  Forall (fun t => t ≠ []) [str "Pricing"; str "Untitled"].
Proof.
  apply (titles_only_never_empty sample.client (str "ds1") 25
           [str "Pricing"; str "Untitled"]).
  reflexivity.
Defined.

End titles.

(** ** Discovery of the data source *)

Section discovery.
Import notion_loader rag loader_spec.

Lemma usable_inv (notion : Client) (c : DataSourceRef) (ds : pystr) :
  usable notion c = Some ds →
  ds_ref_id c = Some ds ∧ truthy ds = true
  ∧ ∃ rows, data_sources_query notion ds 1 None = inr rows.
Proof.
  unfold usable. destruct (ds_ref_id c) as [ds_id|]; [|done].
  destruct (truthy ds_id) eqn:Ht; [|done].
  destruct (data_sources_query notion ds_id 1 None) as [e|rows] eqn:Hq; [done|].
  intros [= <-]. repeat split; [done|]. by exists rows.
Qed.

Lemma discover_for_spec (notion : Client) (candidates : list DataSourceRef) :
  match discover_for notion candidates with
  | Some ds =>
    ∃ pre c post, candidates = pre ++ c :: post ∧ usable notion c = Some ds
                  ∧ Forall (fun c' => usable notion c' = None) pre
  | None => Forall (fun c => usable notion c = None) candidates
  end.
Proof.
  induction candidates as [|c rest IH]; [by constructor|].
  assert (discover_for notion (c :: rest)
          = match usable notion c with
            | Some ds => Some ds
            | None => discover_for notion rest
            end) as ->.
  { cbn [discover_for]. unfold usable.
    destruct (ds_ref_id c) as [ds_id|]; [|done].
    destruct (truthy ds_id); [|done].
    by destruct (data_sources_query notion ds_id 1 None). }
  destruct (usable notion c) as [ds|] eqn:E.
  - by exists [], c, rest.
  - destruct (discover_for notion rest) as [ds|].
    + destruct IH as (pre & c' & post & -> & Hu & Hpre).
      exists (c :: pre), c', post. split; [done|]. split; [done|].
      by constructor.
    + by constructor.
Qed.

(** [discover_data_source_from_page] returns the first search result that
    has a non-empty identifier under which a trial query succeeds: every
    result before it lacks an identifier or fails its trial query. It
    returns nothing only when the search raises or no result passes. The
    page identifier plays no part. *)
Theorem discover_first_usable (notion : Client) (page_id : pystr) :
  (∀ ds, discover_data_source_from_page notion page_id = Some ds →
     ∃ resp pre c post,
       search_data_sources notion 5 = inr resp
       ∧ results resp = pre ++ c :: post
       ∧ ds_ref_id c = Some ds ∧ truthy ds = true
       ∧ (∃ rows, data_sources_query notion ds 1 None = inr rows)
       ∧ Forall (fun c' => usable notion c' = None) pre)
  ∧ (discover_data_source_from_page notion page_id = None →
     (∃ e, search_data_sources notion 5 = inl e)
     ∨ (∃ resp, search_data_sources notion 5 = inr resp
          ∧ Forall (fun c => usable notion c = None) (results resp)))
  ∧ (∀ other, discover_data_source_from_page notion other
              = discover_data_source_from_page notion page_id).
Proof.
  unfold discover_data_source_from_page.
  destruct (search_data_sources notion 5) as [e|resp].
  - split; [done|]. split; [|done]. intros _. left. by exists e.
  - pose proof (discover_for_spec notion (results resp)) as Hspec.
    destruct (discover_for notion (results resp)) as [ds|].
    + split; [|done]. intros ds' [= <-].
      destruct Hspec as (pre & c & post & Heq & Hu & Hpre).
      apply usable_inv in Hu as (Hid & Ht & Hq).
      by exists resp, pre, c, post.
    + split; [done|]. split; [|done]. intros _. right. by exists resp.
Qed.

Lemma discover_first_usable_witness :
  ∃ resp pre c post,
    search_data_sources sample.client 5 = inr resp
    ∧ results resp = pre ++ c :: post
    ∧ ds_ref_id c = Some (str "ds1") ∧ truthy (str "ds1") = true
    ∧ (∃ rows, data_sources_query sample.client (str "ds1") 1 None = inr rows)
    ∧ Forall (fun c' => usable sample.client c' = None) pre.
Proof.
  apply (proj1 (discover_first_usable sample.client (str "anything"))).
  reflexivity.
Defined.

End discovery.

(** ** The text of one block *)

Section block_text.
Import notion_loader rag loader_spec.




End block_text.

Section source_witnesses.
Import notion_loader rag rag_spec.

Lemma page_ids_load_the_data_source_witness :
  load_notion_documents 5 sample.env sample.services
    (Some [str "not-an-id"; sample_id]) None None
  = load_notion_documents 5 sample.env sample.services None None (Some (str "ds1")).
Proof.
  apply (page_ids_load_the_data_source 5 sample.env sample.services
           [str "not-an-id"; sample_id] None (str "ds1")).
  - reflexivity.
  - reflexivity.
  - apply Exists_cons_tl, Exists_cons_hd. reflexivity.
Defined.

Lemma ingest_early_failure_keeps_store_witness :
  ingest 5 sample.env sample.services {[ DEFAULT_PERSIST_DIR := [stored_chunk] ]}
    None None (Some (str "unknown")) DEFAULT_PERSIST_DIR
  = (Raise sample.offline, {[ DEFAULT_PERSIST_DIR := [stored_chunk] ]}).
Proof.
  apply (ingest_early_failure_keeps_store 5 sample.env sample.services
           {[ DEFAULT_PERSIST_DIR := [stored_chunk] ]} None None
           (Some (str "unknown")) DEFAULT_PERSIST_DIR).
  reflexivity.
Defined.


End source_witnesses.

(** ** What the page loader never yields *)

Section page_documents.
Import notion_loader rag loader_spec.

Lemma join_nonempty (sep : pystr) (parts : list pystr) :
  parts ≠ [] → Forall (fun p => p ≠ []) parts → join sep parts ≠ [].
Proof.
  intros Hne Hall. destruct Hall as [|p rest Hp Hrest]; [done|].
  destruct rest as [|q rest]; [done|].
  change (join sep (p :: q :: rest)) with (p ++ sep ++ join sep (q :: rest)).
  by destruct p.
Qed.

Lemma stripped_part_strip (text : pystr) :
  truthy (strip text) = true → stripped_part (strip text).
Proof.
  intros H. split; [by apply truthy_nonempty|apply strip_idem].
Qed.

Lemma blocks_recursive_for_parts (recurse : pystr → outcome (list pystr)) :
  (∀ child sub, recurse child = Ret sub → Forall stripped_part sub) →
  ∀ blocks parts res,
    Forall stripped_part parts →
    blocks_recursive_for recurse blocks parts = Ret res →
    Forall stripped_part res.
Proof.
  intros Hrec blocks. induction blocks as [|block rest IH]; intros parts res Hparts.
  - by intros [= <-].
  - cbn [blocks_recursive_for].
    destruct (archived block || in_trash block); [by apply IH|].
    set (parts' := if truthy (strip (_extract_block_text block)) then _ else _).
    assert (Forall stripped_part parts') as Hparts'.
    { unfold parts'.
      destruct (truthy (strip (_extract_block_text block))) eqn:E; [|done].
      apply Forall_app. split; [done|].
      apply Forall_singleton. by apply stripped_part_strip. }
    destruct (has_children block); [|by apply IH].
    destruct (recurse (id block)) as [sub| |] eqn:Hsub; [|done..].
    cbn. apply IH. apply Forall_app. split; [done|]. by eapply Hrec.
Qed.

Lemma blocks_recursive_while_parts (fuel : nat) (notion : Client) :
  ∀ block_id cursor parts res,
    Forall stripped_part parts →
    blocks_recursive_while fuel notion block_id cursor parts = Ret res →
    Forall stripped_part res.
Proof.
  induction fuel as [|fuel IH]; intros block_id cursor parts res Hparts; [done|].
  cbn [blocks_recursive_while].
  destruct (blocks_children_list notion block_id 100 cursor) as [e|resp]; [done|].
  cbn [call mbind outcome_bind].
  destruct (blocks_recursive_for _ (results resp) parts) as [parts'| |] eqn:Hfor;
    [|done..].
  assert (Forall stripped_part parts') as Hparts'.
  { eapply blocks_recursive_for_parts; [|exact Hparts|exact Hfor].
    intros child sub Hsub. by eapply (IH child None []). }
  destruct (has_more resp); [by apply IH|].
  by intros [= <-].
Qed.

Lemma placeholder_nonempty (title : pystr) : placeholder title ≠ [].
Proof. done. Qed.

(** Every part [_fetch_blocks_recursive] returns is non-empty and free of
    white space at both ends, and no document [NotionPageLoader] yields has
    an empty text, whatever the service answers. *)
Theorem page_documents_never_empty (fuel : nat) (notion : Client)
    (self : NotionPageLoader.t) :
  Forall (fun doc => page_content doc ≠ [])
    (NotionPageLoader.lazy_load fuel notion self).1
  ∧ (∀ block_id parts,
       _fetch_blocks_recursive fuel notion block_id = Ret parts →
       Forall stripped_part parts).
Proof.
  assert (∀ block_id parts,
            _fetch_blocks_recursive fuel notion block_id = Ret parts →
            Forall stripped_part parts) as Hparts.
  { intros block_id parts. by apply blocks_recursive_while_parts. }
  split; [|done].
  unfold NotionPageLoader.lazy_load.
  induction (NotionPageLoader.page_ids self) as [|raw rest IH]; [by constructor|].
  cbn [NotionPageLoader.lazy_load_for].
  set (page_id := NotionPageLoader.page_id_of raw).
  destruct (pages_retrieve notion page_id) as [e|page]; [by constructor|].
  cbn [call mbind outcome_bind].
  destruct (_fetch_blocks_recursive fuel notion page_id) as [blocks|e|] eqn:Hb;
    cbn [try_except]; [|by constructor..].
  unfold yield. cbn [fst]. constructor; [|done].
  cbn [page_content]. destruct blocks as [|b bs]; [apply placeholder_nonempty|].
  apply join_nonempty; [done|].
  eapply Forall_impl; [by eapply Hparts|]. by intros p [? _].
Qed.

(** The two loaders are built only with a token: from the argument when
    it is given and not empty, else from [NOTION_API_KEY]; with neither,
    building raises [ValueError("NOTION_API_KEY required.")]. *)
Theorem loaders_require_token (page_ids : list pystr) (data_source_id : pystr)
    (token env_key : option pystr) :
  let chosen := if env_set token then token else env_key in
  (env_set chosen = false →
   NotionPageLoader.__init__ page_ids token env_key
   = inl (ValueError (str "NOTION_API_KEY required."))
   ∧ NotionDataSourceLoader.__init__ data_source_id token env_key
     = inl (ValueError (str "NOTION_API_KEY required.")))
  ∧ (env_set chosen = true →
     ∃ pages source,
       NotionPageLoader.__init__ page_ids token env_key = inr pages
       ∧ NotionDataSourceLoader.__init__ data_source_id token env_key = inr source
       ∧ NotionPageLoader.integration_token pages = default [] chosen
       ∧ NotionDataSourceLoader.integration_token source = default [] chosen).
Proof.
  cbv zeta. unfold NotionPageLoader.__init__, NotionDataSourceLoader.__init__,
    resolve_token, env_set.
  destruct token as [[|c t]|], env_key as [[|c' t']|]; cbn; split; try done;
    intros _; by eexists _, _.
Qed.

Lemma loaders_require_token_witness :
  NotionPageLoader.__init__ [str "abc"] (Some []) None
  = inl (ValueError (str "NOTION_API_KEY required."))
  ∧ NotionDataSourceLoader.__init__ (str "ds1") (Some []) None
    = inl (ValueError (str "NOTION_API_KEY required.")).
Proof.
  apply (loaders_require_token [str "abc"] (str "ds1") (Some []) None).
  reflexivity.
Defined.

End page_documents.

(** ** The patched state store of the login *)

Section state_data.
Import auth_patch.

Variables Data Time Cache : Type.
Variable plus : Time → Time → Time.
Variable cache_set : pystr → pystr → Time → Cache → Cache.
Variable cache_get : pystr → Cache → option pystr.
Variable cache_delete : pystr → Cache → Cache.
Variable dumps : Data → pystr.
Variable loads : pystr → option (Entry Data Time).
Variable clear_session : gmap pystr (Entry Data Time) → gmap pystr (Entry Data Time).

Lemma state_key_inj (self : Integration Time) (state state' : pystr) :
  state_key Time self state = state_key Time self state' → state = state'.
Proof.
  unfold state_key. rewrite !app_assoc. apply app_inv_head.
Qed.

(** Without a cache, state data put into a session is read back from it
    under the same state, and the data of every other state is read as
    before. *)
Theorem session_state_round_trip (self : Integration Time) (now : Time)
    (s : gmap pystr (Entry Data Time)) (state : pystr) (data : Data) :
  let after := _patched_set_state_data Data Time Cache plus cache_set dumps self None now (Some s) state data in
  _patched_get_state_data Data Time Cache cache_get loads self after.2 after.1 state = Some data
  ∧ (∀ other, other ≠ state →
       _patched_get_state_data Data Time Cache cache_get loads self after.2 after.1 other = _patched_get_state_data Data Time Cache cache_get loads self None (Some s) other).
Proof.
  cbv zeta. cbn [_patched_set_state_data fst snd]. split.
  - unfold _patched_get_state_data. rewrite lookup_insert_eq. reflexivity.
  - intros other Hne. unfold _patched_get_state_data.
    rewrite lookup_insert_ne; [done|].
    intros Heq. apply Hne. symmetry. by eapply state_key_inj.
Qed.

(** With neither session nor cache there is nowhere to keep state data:
    setting it changes nothing and reading it gives nothing. With both, the
    entry the setter leaves in the session carries only the expiry, and the
    getter reads that entry instead of the cache: the data just set is not
    read back, whatever the cache is. *)
Theorem state_data_not_read_back (self : Integration Time) (now : Time)
    (state : pystr) (data : Data) :
  (_patched_set_state_data Data Time Cache plus cache_set dumps self None now None state data = (None, None)
   ∧ _patched_get_state_data Data Time Cache cache_get loads self None None state = None)
  ∧ (∀ (c : Cache) (s : gmap pystr (Entry Data Time)),
       let after := _patched_set_state_data Data Time Cache plus cache_set dumps self (Some c) now (Some s) state data in
       _patched_get_state_data Data Time Cache cache_get loads self after.2 after.1 state = None).
Proof.
  split; [done|]. intros c s. cbv zeta.
  cbn [_patched_set_state_data fst snd]. unfold _patched_get_state_data.
  rewrite lookup_insert_eq. reflexivity.
Qed.

(** With a cache and no session (the case the patch is written for), state
    data is read back from the cache, provided the cache returns what was
    just stored under a key and the JSON text of the data is read back as
    the data. *)
Theorem cache_state_round_trip (self : Integration Time) (now : Time) (c : Cache)
    (state : pystr) (data : Data) :
  (∀ key value ttl c, cache_get key (cache_set key value ttl c) = Some value) →
  truthy (dumps data) = true →
  loads (dumps data) = Some {| entry_data := Some data; entry_exp := None |} →
  let after := _patched_set_state_data Data Time Cache plus cache_set dumps self (Some c) now None state data in
  after.1 = None ∧ _patched_get_state_data Data Time Cache cache_get loads self after.2 after.1 state = Some data.
Proof.
  intros Hcache Ht Hjson. cbv zeta. cbn [_patched_set_state_data fst snd].
  split; [done|]. unfold _patched_get_state_data. cbn [entry_truthy negb].
  rewrite Hcache, Ht, Hjson. reflexivity.
Qed.

(** Clearing a state removes it from the session: without a cache it is
    read as absent afterwards, provided the clean-up of the base class adds
    no entry to the session. *)
Theorem cleared_state_is_gone (self : Integration Time)
    (s : gmap pystr (Entry Data Time)) (state : pystr) :
  (∀ s key, s !! key = None → clear_session s !! key = None) →
  let after := _patched_clear_state_data Data Time Cache cache_delete clear_session self None (Some s) state in
  _patched_get_state_data Data Time Cache cache_get loads self after.2 after.1 state = None.
Proof.
  intros Hclean. cbv zeta. cbn [_patched_clear_state_data fst snd].
  unfold _patched_get_state_data.
  rewrite Hclean by apply lookup_delete_eq. done.
Qed.

End state_data.

Section state_data_witnesses.
Import auth_patch sample_auth.

Lemma cache_state_round_trip_witness :
  _patched_get_state_data pystr nat (gmap pystr pystr) map_cache_get text_loads google
    (_patched_set_state_data pystr nat (gmap pystr pystr) Nat.add map_cache_set (fun d : pystr => d) google
       (Some ∅) 100 None (str "xyz") (str "nonce")).2
    None (str "xyz")
  = Some (str "nonce").
Proof.
  apply (cache_state_round_trip pystr nat (gmap pystr pystr) Nat.add map_cache_set map_cache_get
           (fun d : pystr => d) text_loads google 100 ∅ (str "xyz") (str "nonce")).
  - intros key value ttl c. apply lookup_insert_eq.
  - reflexivity.
  - reflexivity.
Defined.

Lemma cleared_state_is_gone_witness :
  _patched_get_state_data pystr nat (gmap pystr pystr) map_cache_get text_loads google None
    (_patched_clear_state_data pystr nat (gmap pystr pystr) (fun key c => delete key c) (fun s => s) google
       None (Some {[ state_key nat google (str "xyz") :=
                       {| entry_data := Some (str "nonce"); entry_exp := Some 3700 |} ]})
       (str "xyz")).1
    (str "xyz")
  = None.
Proof.
  apply (cleared_state_is_gone pystr nat (gmap pystr pystr) map_cache_get (fun key c => delete key c) text_loads
           (fun s => s) google).
  intros s key H. exact H.
Defined.

End state_data_witnesses.
